(** * Medical_RAG: the document store of [vector_store.py]

    A shallow embedding of [VectorStore] (chunker, [add_document],
    [get_all_documents], [delete_document], [query]) and of the Chroma
    collection it drives, with the properties of the design document
    stated against it.

    Conventions.
    - A Python [str] is a [string]; one [ascii] stands for one code point
      below 256, so the texts covered are the Latin-1 ones.
    - [len] is [String.length]; [max_chunk_size] is a Python [int], hence [Z].
    - A metadata [dict] is a [gmap string MetaValue]; the ordered [dict]
      built by [get_all_documents] is an association list, because the order
      of [list(doc_map.values())] is the insertion order.
    - Code that can raise runs in the monad [Py], which threads the
      collection and carries the exception. *)

From Stdlib Require Import ZArith Ascii String.
From stdpp Require Import gmap strings list pretty.

(** ** Python string primitives *)

Module PyStr.

(** [bool(s)]: a string is true when it is not empty. *)
Definition truthy (s : string) : bool :=
  match s with
  | EmptyString => false
  | String _ _ => true
  end.

(** [len(s)], as a Python integer. *)
Definition len (s : string) : Z := Z.of_nat (String.length s).

(** [c.isspace()] for the code points below 256: TAB, LF, VT, FF, CR,
    the four separators FS, GS, RS, US, the space, NEL and the
    no-break space. *)
Definition isspace (c : ascii) : bool :=
  match c with
  | "009" | "010" | "011" | "012" | "013"
  | "028" | "029" | "030" | "031"
  | " " | "133" | "160" => true
  | _ => false
  end%char.

(** [s.lstrip()] *)
Fixpoint lstrip (s : string) : string :=
  match s with
  | EmptyString => EmptyString
  | String c r => if isspace c then lstrip r else s
  end.

(** [s.rstrip()] *)
Fixpoint rstrip (s : string) : string :=
  match s with
  | EmptyString => EmptyString
  | String c r =>
      match rstrip r with
      | EmptyString => if isspace c then EmptyString else String c EmptyString
      | r' => String c r'
      end
  end.

(** [s.strip()] *)
Definition strip (s : string) : string := rstrip (lstrip s).

(** [s.split(sep)] for a one-character separator: never the empty list,
    [''.split(sep) == ['']]. *)
Fixpoint split (sep : ascii) (s : string) : list string :=
  match s with
  | EmptyString => [EmptyString]
  | String c r =>
      if Ascii.eqb c sep then EmptyString :: split sep r
      else match split sep r with
           | h :: t => String c h :: t
           | [] => [String c EmptyString]
           end
  end.

(** [s[:n]] for [n >= 0]. *)
Fixpoint prefix (n : nat) (s : string) : string :=
  match n, s with
  | O, _ => EmptyString
  | S _, EmptyString => EmptyString
  | S n', String c r => String c (prefix n' r)
  end.

(** The newline character ['\n']. *)
Definition newline : ascii := "010"%char.

(** [c not in s] *)
Fixpoint free_of (c : ascii) (s : string) : Prop :=
  match s with
  | EmptyString => True
  | String a r => a ≠ c ∧ free_of c r
  end.

(** [c.lower()] for one code point below 256: the letters A to Z and the
    accented capitals of Latin-1 (192 to 222, the sign 215 apart) move up
    by 32, the others stay. *)
Definition lower_char (c : ascii) : ascii :=
  let n := N_of_ascii c in
  if ((65 <=? n) && (n <=? 90) || (192 <=? n) && (n <=? 222) && negb (n =? 215))%N
  then ascii_of_N (n + 32)
  else c.

(** [s.lower()] *)
Fixpoint lower (s : string) : string :=
  match s with
  | EmptyString => EmptyString
  | String c r => String (lower_char c) (lower r)
  end.

(** [s.startswith(p)] *)
Fixpoint startswith (p s : string) : bool :=
  match p, s with
  | EmptyString, _ => true
  | String _ _, EmptyString => false
  | String a p', String b s' => Ascii.eqb a b && startswith p' s'
  end.

(** [k in s], the substring test. *)
Fixpoint contains (k s : string) : bool :=
  startswith k s
  || match s with
     | EmptyString => false
     | String _ r => contains k r
     end.

(** [sep.join(l)] *)
Fixpoint join (sep : string) (l : list string) : string :=
  match l with
  | [] => EmptyString
  | [x] => x
  | x :: rest => x +:+ sep +:+ join sep rest
  end.

End PyStr.

(** ** The chunker: [VectorStore._chunk_text] *)

(** The two local variables of the loop. *)
Record ChunkLoop := mkChunkLoop {
  chunks : list string;
  current_chunk : string
}.

(** One iteration of [for paragraph in paragraphs]. *)
Definition chunk_iter (max_chunk_size : Z) (st : ChunkLoop) (paragraph : string)
  : ChunkLoop :=
  if (PyStr.len (current_chunk st) + PyStr.len paragraph >? max_chunk_size)%Z
     && PyStr.truthy (current_chunk st)
  then mkChunkLoop (chunks st ++ [PyStr.strip (current_chunk st)]) paragraph
  else if PyStr.truthy (current_chunk st)
       then mkChunkLoop (chunks st) (current_chunk st +:+ " " +:+ paragraph)
       else mkChunkLoop (chunks st) paragraph.

(** [paragraphs = [p for p in text.split('\n') if p.strip()]] *)
Definition paragraphs_of (text : string) : list string :=
  List.filter (fun p => PyStr.truthy (PyStr.strip p)) (PyStr.split PyStr.newline text).

Definition _chunk_text (text : string) (max_chunk_size : Z) : list string :=
  let st := fold_left (chunk_iter max_chunk_size) (paragraphs_of text)
                      (mkChunkLoop [] "") in
  if PyStr.truthy (current_chunk st)
  then chunks st ++ [PyStr.strip (current_chunk st)]
  else chunks st.

(** The default of the parameter [max_chunk_size]. *)
Definition default_max_chunk_size : Z := 512.


(** ** Metadata and the Chroma collection *)

(** The values a metadata mapping holds: the caller's strings, the store's
    [doc_id] (a string) and [chunk_index] (an integer). *)
Inductive MetaValue :=
  | MStr (s : string)
  | MInt (n : Z).

#[global] Instance MetaValue_eq_dec : EqDecision MetaValue.
Proof. solve_decision. Defined.

Abbreviation Metadata := (gmap string MetaValue).

(** Modelled from the spec: the Chunk Store is the external engine behind
    [self.collection] (a Chroma collection), absent from the repository.
    It holds (id, text, metadata) items in insertion order, with unique
    ids, each item with a metadata mapping; [get()] returns the three
    parallel lists [ids], [documents] and [metadatas]; [add] appends an
    item and ignores an id already present; [delete(ids)] removes exactly
    the items whose id is listed.  The embedding vector plays no part in
    these operations and is left out. *)
Module Chroma.

Record Item := mkItem {
  id : string;
  document : string;
  metadata : Metadata
}.

Abbreviation Collection := (list Item).

Record GetResult := mkGetResult {
  ids : list string;
  documents : list string;
  metadatas : list Metadata
}.

Definition get (c : Collection) : GetResult :=
  mkGetResult (id <$> c) (document <$> c) (metadata <$> c).

Definition add (x : Item) (c : Collection) : Collection :=
  if bool_decide (id x ∈ id <$> c) then c else c ++ [x].

Definition delete (to_delete : list string) (c : Collection) : Collection :=
  filter (λ x, id x ∉ to_delete) c.

(** The engine's own invariant: ids are unique. *)
Definition wf (c : Collection) : Prop := NoDup (id <$> c).

End Chroma.

(** ** Exceptions and the monad of store operations *)

Inductive PyError :=
  | KeyError (key : MetaValue)
  | IndexError.

Inductive Outcome (A : Type) :=
  | Returned (a : A)
  | Raised (e : PyError).
Arguments Returned {A} a.
Arguments Raised {A} e.

(** A computation over the collection: it ends by returning or by raising,
    and in both cases leaves a collection behind. *)
Definition Py (A : Type) : Type := Chroma.Collection → Outcome A * Chroma.Collection.

#[global] Instance Py_ret : MRet Py := λ A a c, (Returned a, c).
#[global] Instance Py_bind : MBind Py := λ A B f m c,
  match m c with
  | (Returned a, c') => f a c'
  | (Raised e, c') => (Raised e, c')
  end.

Definition raise {A} (e : PyError) : Py A := λ c, (Raised e, c).

(** [for x in l: acc = body(acc, x)] *)
Fixpoint for_each {A S} (body : S → A → Py S) (l : list A) (acc : S) : Py S :=
  match l with
  | [] => mret acc
  | x :: l' => acc' ← body acc x; for_each body l' acc'
  end.

(** [enumerate(l)], counting from [start]. *)
Fixpoint enumerate_from {A} (start : nat) (l : list A) : list (nat * A) :=
  match l with
  | [] => []
  | x :: l' => (start, x) :: enumerate_from (S start) l'
  end.
Definition enumerate {A} (l : list A) : list (nat * A) := enumerate_from 0 l.

(** [l[i]] for an index that is not negative. *)
Definition index {A} (l : list A) (i : nat) : Py A :=
  match l !! i with
  | Some x => mret x
  | None => raise IndexError
  end.

(** [d[key]] *)
Definition getitem (d : Metadata) (key : string) : Py MetaValue :=
  match d !! key with
  | Some v => mret v
  | None => raise (KeyError (MStr key))
  end.

Definition collection_get : Py Chroma.GetResult := λ c, (Returned (Chroma.get c), c).
Definition collection_add (x : Chroma.Item) : Py unit := λ c, (Returned tt, Chroma.add x c).
Definition collection_delete (to_delete : list string) : Py unit :=
  λ c, (Returned tt, Chroma.delete to_delete c).

(** ** [VectorStore.add_document] *)

(** [f"{doc_id}_{i}"] *)
Definition chunk_id_of (doc_id : string) (i : nat) : string :=
  doc_id +:+ "_" +:+ pretty i.

(** [{**metadata, "doc_id": doc_id, "chunk_index": i}] *)
Definition chunk_metadata_of (metadata : Metadata) (doc_id : string) (i : nat) : Metadata :=
  <["chunk_index" := MInt (Z.of_nat i)]> (<["doc_id" := MStr doc_id]> metadata).

(** [if not metadata: metadata = {}]: [None] and the empty mapping both
    give the empty mapping. *)
Definition metadata_or_empty (metadata : option Metadata) : Metadata :=
  match metadata with
  | Some m => m
  | None => ∅
  end.

(** The first argument is the value [str(uuid.uuid4())] takes in this call. *)
Definition add_document (uuid4 : string) (text : string) (metadata : option Metadata)
  : Py string :=
  let doc_id := uuid4 in
  let metadata := metadata_or_empty metadata in
  let chunks := _chunk_text text default_max_chunk_size in
  for_each (λ (_ : unit) '(i, chunk),
      let chunk_id := chunk_id_of doc_id i in
      let chunk_metadata := chunk_metadata_of metadata doc_id i in
      collection_add (Chroma.mkItem chunk_id chunk chunk_metadata))
    (enumerate chunks) tt;;
  mret doc_id.

(** The item the loop of [add_document] submits for the chunk at position [i]. *)
Definition stored_item (doc_id : string) (metadata : Metadata) (i : nat) (chunk : string)
  : Chroma.Item :=
  Chroma.mkItem (chunk_id_of doc_id i) chunk (chunk_metadata_of metadata doc_id i).

(** ** [VectorStore.query] *)

Section Query.
(** The nearest-neighbour search of the engine, [collection.query]: it
    reads the collection and answers with a result of the engine's type. *)
Context {QueryResult : Type}.
Variable collection_query : Chroma.Collection → list string → Z → QueryResult.

Definition query (query_text : string) (n_results : Z) : Py QueryResult :=
  λ c, (Returned (collection_query c [query_text] n_results), c).
End Query.

(** ** [VectorStore.get_all_documents] *)

Module Summary.
Record t := mk {
  id : MetaValue;
  metadata : Metadata;
  chunk_count : Z;
  sample_text : string
}.
End Summary.

(** [doc_map]: a [dict] in insertion order, keyed by the [doc_id] value. *)
Abbreviation DocMap := (list (MetaValue * Summary.t)).

(** [key in doc_map] *)
Definition doc_map_contains (doc_map : DocMap) (key : MetaValue) : bool :=
  bool_decide (key ∈ doc_map.*1).

(** [doc_map[key] = v]: a new key goes last, an old one keeps its place. *)
Fixpoint doc_map_set (doc_map : DocMap) (key : MetaValue) (v : Summary.t) : DocMap :=
  match doc_map with
  | [] => [(key, v)]
  | (k, w) :: rest =>
      if decide (k = key) then (k, v) :: rest else (k, w) :: doc_map_set rest key v
  end.

(** [doc_map[key]["chunk_count"] += 1]; the key is present where the code
    does this, and an absent key is the [KeyError] of [doc_map[key]]. *)
Fixpoint doc_map_increment (doc_map : DocMap) (key : MetaValue) : option DocMap :=
  match doc_map with
  | [] => None
  | (k, w) :: rest =>
      if decide (k = key)
      then Some ((k, Summary.mk (Summary.id w) (Summary.metadata w)
                                (Summary.chunk_count w + 1) (Summary.sample_text w)) :: rest)
      else cons (k, w) <$> doc_map_increment rest key
  end.

(** [{k: v for k, v in md.items() if k not in ["doc_id", "chunk_index"]}] *)
Definition strip_reserved (md : Metadata) : Metadata :=
  filter (λ kv, kv.1 ∉ ["doc_id"; "chunk_index"]) md.

(** The body of [for i, doc_id in enumerate(all_data["ids"])]. *)
Definition get_all_documents_body (all_data : Chroma.GetResult) (doc_map : DocMap)
    (entry : nat * string) : Py DocMap :=
  let '(i, doc_id) := entry in
  md ← index (Chroma.metadatas all_data) i;
  base_id ← getitem md "doc_id";
  doc_map ← (if negb (doc_map_contains doc_map base_id)
             then md' ← index (Chroma.metadatas all_data) i;
                  doc ← index (Chroma.documents all_data) i;
                  mret (doc_map_set doc_map base_id
                          (Summary.mk base_id (strip_reserved md') 0
                                      (PyStr.prefix 100 doc +:+ "...")))
             else mret doc_map);
  match doc_map_increment doc_map base_id with
  | Some doc_map' => mret doc_map'
  | None => raise (KeyError base_id)
  end.

Definition get_all_documents : Py (list Summary.t) :=
  all_data ← collection_get;
  doc_map ← for_each (get_all_documents_body all_data)
                     (enumerate (Chroma.ids all_data)) [];
  mret (doc_map.*2).

(** The body of the loop of [get_all_documents] as a function of the item
    read at position [i], and the loop as a function of the items read: the
    form in which the listing is reasoned about, shown below to be what
    [get_all_documents] computes. *)
Definition group_item (doc_map : DocMap) (x : Chroma.Item) : Outcome DocMap :=
  match Chroma.metadata x !! "doc_id" with
  | None => Raised (KeyError (MStr "doc_id"))
  | Some base_id =>
      let doc_map' :=
        if negb (doc_map_contains doc_map base_id)
        then doc_map_set doc_map base_id
               (Summary.mk base_id (strip_reserved (Chroma.metadata x)) 0
                           (PyStr.prefix 100 (Chroma.document x) +:+ "..."))
        else doc_map in
      match doc_map_increment doc_map' base_id with
      | Some doc_map'' => Returned doc_map''
      | None => Raised (KeyError base_id)
      end
  end.

Fixpoint group_items (doc_map : DocMap) (items : list Chroma.Item) : Outcome DocMap :=
  match items with
  | [] => Returned doc_map
  | x :: rest =>
      match group_item doc_map x with
      | Returned doc_map' => group_items doc_map' rest
      | Raised e => Raised e
      end
  end.

(** ** [VectorStore.delete_document] *)

Definition delete_document (doc_id : string) : Py unit :=
  all_data ← collection_get;
  to_delete ← for_each (λ (to_delete : list string) '(i, metadata),
      if bool_decide (metadata !! "doc_id" = Some (MStr doc_id))
      then x ← index (Chroma.ids all_data) i; mret (to_delete ++ [x])
      else mret to_delete)
    (enumerate (Chroma.metadatas all_data)) [];
  if bool_decide (to_delete ≠ [])
  then collection_delete to_delete
  else mret tt.

(** ** The loop as a recursion *)

(** What the loop of [_chunk_text] and the [if current_chunk] after it
    add to [chunks], from a value of [current_chunk] and the paragraphs
    still to come: the test is the one of the loop, the two lengths added
    up against the budget. The lemma [chunk_loop_accumulate] shows that
    this is the loop. *)
Fixpoint loop_chunks (max_chunk_size : Z) (current : string) (ps : list string)
  : list string :=
  match ps with
  | [] =>
      match current with
      | EmptyString => []
      | _ => [PyStr.strip current]
      end
  | p :: rest =>
      match current with
      | EmptyString => loop_chunks max_chunk_size p rest
      | _ =>
          if (PyStr.len current + PyStr.len p <=? max_chunk_size)%Z
          then loop_chunks max_chunk_size (current +:+ " " +:+ p) rest
          else PyStr.strip current :: loop_chunks max_chunk_size p rest
      end
  end.

(** ** The chunker of the design document *)

(** The contract of section 4.1, in its own words: the text is split on
    line boundaries and the paragraphs made of whitespace only are
    discarded; a paragraph is appended, joined with a single space, to the
    running chunk if doing so keeps the length of the chunk within
    [max_chunk_size]; otherwise the running chunk is closed, trimmed, and
    a new one is started with just that paragraph; the last running chunk
    is closed at the end if it is not empty.  The first paragraph, and a
    paragraph longer than the budget, start a chunk whatever their
    length. *)
Module Reference.

Fixpoint whitespace_only (p : string) : bool :=
  match p with
  | EmptyString => true
  | String c r => PyStr.isspace c && whitespace_only r
  end.

Definition candidate_paragraphs (text : string) : list string :=
  List.filter (fun p => negb (whitespace_only p)) (PyStr.split PyStr.newline text).

(** The chunk that appending [p] to the running chunk would give. *)
Definition appended (running p : string) : string := running +:+ " " +:+ p.

Fixpoint accumulate (max_chunk_size : Z) (running : string) (ps : list string)
  : list string :=
  match ps with
  | [] =>
      match running with
      | EmptyString => []
      | _ => [PyStr.strip running]
      end
  | p :: rest =>
      match running with
      | EmptyString => accumulate max_chunk_size p rest
      | _ =>
          if (PyStr.len (appended running p) <=? max_chunk_size)%Z
          then accumulate max_chunk_size (appended running p) rest
          else PyStr.strip running :: accumulate max_chunk_size p rest
      end
  end.

Definition chunk (text : string) (max_chunk_size : Z) : list string :=
  accumulate max_chunk_size "" (candidate_paragraphs text).

End Reference.

(** ** The paragraphs behind each chunk *)

(** The loop of [_chunk_text] again, keeping for the running chunk the
    list of the paragraphs joined so far instead of their join: the
    running chunk is [" ".join(group)], and the result lists, chunk by
    chunk, the paragraphs that went into it. *)
Fixpoint group_paragraphs (max_chunk_size : Z) (group : list string) (ps : list string)
  : list (list string) :=
  match ps with
  | [] =>
      match group with
      | [] => []
      | _ => [group]
      end
  | p :: rest =>
      match group with
      | [] => group_paragraphs max_chunk_size [p] rest
      | _ =>
          if (PyStr.len (PyStr.join " " group) + PyStr.len p <=? max_chunk_size)%Z
          then group_paragraphs max_chunk_size (group ++ [p]) rest
          else group :: group_paragraphs max_chunk_size [p] rest
      end
  end.

(** The characters of a list of strings, counting one more per string:
    the length of their join by a one-character separator, plus one. *)
Fixpoint joined_size (l : list string) : Z :=
  match l with
  | [] => 0
  | x :: rest => PyStr.len x + 1 + joined_size rest
  end.

(** The chunk made of a group of paragraphs. *)
Definition chunk_of_group (group : list string) : string :=
  PyStr.strip (PyStr.join " " group).

(** ** Texts of the scenarios *)

(** ["\n"] *)
Definition nl : string := String PyStr.newline "".

(** ["Para one.\nPara two.\n\nPara three."] *)
Definition three_paragraphs : string :=
  "Para one." +:+ nl +:+ "Para two." +:+ nl +:+ nl +:+ "Para three.".

(** ["aaaaa\nbbbbb"]: two lines of five characters. *)
Definition two_fives : string := "aaaaa" +:+ nl +:+ "bbbbb".

(** A line of [n] copies of one character. *)
Fixpoint line_of (n : nat) (c : ascii) : string :=
  match n with
  | O => EmptyString
  | S n' => String c (line_of n' c)
  end.

(** Two lines of 256 characters: together they are the default budget. *)
Definition two_halves : string := line_of 256 "a" +:+ nl +:+ line_of 256 "b".

(** A line of 150 characters, then one of 400: two chunks under the
    default budget, the first one longer than a preview. *)
Definition long_document : string := line_of 150 "a" +:+ nl +:+ line_of 400 "b".

(** ["  Para one. \n   \n\n Para two.  \n"]: two paragraphs with spaces
    around them, between lines that are blank or empty. *)
Definition padded_paragraphs : string :=
  "  Para one. " +:+ nl +:+ "   " +:+ nl +:+ nl +:+ " Para two.  " +:+ nl.

(** An item of document ["a"], as [add_document] writes it, and an item
    without [doc_id], as another client of the collection can leave one. *)
Definition owned_item : Chroma.Item := stored_item "a" ∅ 0 "hello".
Definition stray_item : Chroma.Item := Chroma.mkItem "stray" "no owner" ∅.

(** ** Histories of the store *)

(** A call of one of the two operations that change the collection; an
    [OpAdd] carries the identifier [uuid4()] gave to that call. *)
Inductive Op :=
  | OpAdd (uuid4 : string) (text : string) (metadata : option Metadata)
  | OpDelete (doc_id : string).

(** The collection a call leaves behind, whether it returned or raised. *)
Definition run_op (op : Op) (c : Chroma.Collection) : Chroma.Collection :=
  match op with
  | OpAdd uuid4 text metadata => (add_document uuid4 text metadata c).2
  | OpDelete doc_id => (delete_document doc_id c).2
  end.

Definition run_ops (ops : list Op) (c : Chroma.Collection) : Chroma.Collection :=
  fold_left (λ c op, run_op op c) ops c.

(** The identifiers handed out along a history, oldest first. *)
Definition generated_ids (ops : list Op) : list string :=
  omap (λ op, match op with OpAdd u _ _ => Some u | OpDelete _ => None end) ops.

(** An item belongs to document [doc_id]. *)
Definition carries (doc_id : string) (x : Chroma.Item) : Prop :=
  Chroma.metadata x !! "doc_id" = Some (MStr doc_id).

#[global] Instance carries_dec doc_id x : Decision (carries doc_id x).
Proof. unfold carries. apply _. Defined.

(** The [chunk_index] entries of the items of a document, in store order. *)
Definition chunk_indexes (doc_id : string) (c : Chroma.Collection)
  : list (option MetaValue) :=
  (λ x, Chroma.metadata x !! "chunk_index") <$> filter (carries doc_id) c.

(** [0, 1, ..., n-1] as [chunk_index] entries. *)
Definition zero_based (n : nat) : list (option MetaValue) :=
  (λ i, Some (MInt (Z.of_nat i))) <$> seq 0 n.

(** A listing mentions document [doc_id]. *)
Definition reports (listing : Outcome (list Summary.t)) (doc_id : string) : Prop :=
  match listing with
  | Returned docs => MStr doc_id ∈ Summary.id <$> docs
  | Raised _ => False
  end.

(** ** The listing, document by document *)

(** The [doc_id] values of the items, in store order. *)
Definition doc_id_values (c : Chroma.Collection) : list MetaValue :=
  omap (λ x, Chroma.metadata x !! "doc_id") c.

(** The distinct values of a list, each at the place of its first
    appearance. *)
Fixpoint first_occurrences (l : list MetaValue) : list MetaValue :=
  match l with
  | [] => []
  | v :: rest => v :: filter (λ w, w ≠ v) (first_occurrences rest)
  end.

(** The items filed under the [doc_id] value [k], in store order. *)
Definition items_of (k : MetaValue) (c : Chroma.Collection) : list Chroma.Item :=
  filter (λ x, Chroma.metadata x !! "doc_id" = Some k) c.

(** The summary of the document [k]: metadata and preview of its first
    item, and the number of its items. *)
Definition summary_of (k : MetaValue) (c : Chroma.Collection) : Summary.t :=
  let xs := items_of k c in
  Summary.mk k
    (strip_reserved (from_option Chroma.metadata ∅ (head xs)))
    (Z.of_nat (length xs))
    (PyStr.prefix 100 (from_option Chroma.document "" (head xs)) +:+ "...").

Definition listing_of (c : Chroma.Collection) : list Summary.t :=
  (λ k, summary_of k c) <$> first_occurrences (doc_id_values c).

(** [sum(s["chunk_count"] for s in docs)] *)
Definition total_chunk_count (docs : list Summary.t) : Z :=
  foldr Z.add 0%Z (Summary.chunk_count <$> docs).

(** What holds of the collection along a history, [used] being the
    identifiers generated so far: ids are unique, every item is a chunk of a
    generated document and is named after it, and the chunk indexes of
    every document count up from zero. *)
Definition store_inv (used : list string) (c : Chroma.Collection) : Prop :=
  Chroma.wf c
  ∧ (∀ x, x ∈ c → ∃ d i, d ∈ used ∧ Chroma.id x = chunk_id_of d i ∧ carries d x)
  ∧ (∀ d, chunk_indexes d c = zero_based (length (chunk_indexes d c))).

(** ** The request layer: [rag.py] *)

Module Rag.

(** [prohibited_keywords] of [generate_response]. *)
Definition prohibited_keywords : list string :=
  ["medicine"; "prescription"; "treatment"; "dose"; "drug"; "take for"].

(** The answer to a prompt with a prohibited keyword. *)
Definition refusal : string :=
  "I'm sorry, but I can't provide medical advice or prescriptions. Please consult a healthcare professional.".

(** The result of [collection.query], a value of the engine outside the
    repository: the code reads its ["documents"] entry only, one list of
    texts per query text. *)
Record QueryResult := mkQueryResult {
  documents : list (list string)
}.

(** The dict [generate_response] returns. *)
Record Answer := mkAnswer {
  response : string;
  rag_used : bool;
  documents_used : list string
}.

(** [generate_response] returns a [str] when it refuses and a dict when it
    answers. *)
Inductive Reply :=
  | Refused (message : string)
  | Answered (answer : Answer).

(** [8 * " "], the indentation inside the prompt template. *)
Definition indent : string := "        ".

(** ["\n\n".join(f"Document context: {doc}" for doc in context_docs)] *)
Definition context_of (context_docs : list string) : string :=
  PyStr.join (String PyStr.newline (String PyStr.newline ""))
             ((λ doc, "Document context: " +:+ doc) <$> context_docs).

(** The f-string of [enhanced_prompt]: it opens with a newline and every
    line, the last one included, starts with eight spaces. *)
Definition enhanced_prompt_of (context prompt : string) : string :=
  String PyStr.newline ""
  +:+ indent +:+ "I'm going to answer a question based on the following context information:"
  +:+ String PyStr.newline ""
  +:+ indent +:+ String PyStr.newline ""
  +:+ indent +:+ context +:+ String PyStr.newline ""
  +:+ indent +:+ String PyStr.newline ""
  +:+ indent +:+ "Question: " +:+ prompt +:+ String PyStr.newline ""
  +:+ indent +:+ String PyStr.newline ""
  +:+ indent +:+ "Answer:" +:+ String PyStr.newline ""
  +:+ indent.

Section Generate.
(** The search of the engine and the text of the answer of the language
    model, [model.generate_content(p).text], both outside the repository. *)
Variable collection_query : Chroma.Collection → list string → Z → QueryResult.
Variable generate_content : string → string.

Definition generate_response (prompt : string) (use_rag : bool) : Py Reply :=
  if existsb (λ keyword, PyStr.contains keyword (PyStr.lower prompt)) prohibited_keywords
  then mret (Refused refusal)
  else
    results ← (if use_rag
               then r ← query collection_query prompt 5; mret (Some r)
               else mret None);
    context ← match results with
              | Some r =>
                  if bool_decide (documents r ≠ [])
                  then first ← index (documents r) 0;
                       if bool_decide (first ≠ [])
                       then context_docs ← index (documents r) 0;
                            mret (context_of context_docs)
                       else mret ""
                  else mret ""
              | None => mret ""
              end;
    let enhanced_prompt :=
      if PyStr.truthy context then enhanced_prompt_of context prompt else prompt in
    let response := generate_content enhanced_prompt in
    (* [results] is bound whenever [use_rag and context] holds, so the
       branch without it is never taken. *)
    documents_used ← (if use_rag && PyStr.truthy context
                      then match results with
                           | Some r => index (documents r) 0
                           | None => raise IndexError
                           end
                      else mret []);
    mret (Answered (mkAnswer response (PyStr.truthy context) documents_used)).
End Generate.

(** The body of a reply of the service, beside its status. An exception
    caught by an endpoint is sent as [{"error": str(e)}]; the model keeps
    the exception. *)
Inductive Body :=
  | ErrorMessage (message : string)
  | ErrorException (e : PyError)
  | Documents (docs : list Summary.t)
  | Success
  | Added (document_id : string)
  | Generated (reply : Reply).

Definition Response : Type := Body * Z.

(** An endpoint turns a request into a response and may change the
    collection on the way. *)
Definition Endpoint : Type := Chroma.Collection → Response * Chroma.Collection.

(** [try: ... return ok(a) except Exception as e: return error(e), 500] *)
Definition try_except {A} (m : Py A) (ok : A → Response) : Endpoint :=
  λ c, match m c with
       | (Returned a, c') => (ok a, c')
       | (Raised e, c') => ((ErrorException e, 500%Z), c')
       end.

(** [key in data], for a key held as an option. *)
Definition present {A} (o : option A) : bool :=
  match o with
  | Some _ => true
  | None => false
  end.

(** The JSON body of [POST /add_document], for the bodies that are objects
    with a string under ["text"] and ["title"] and an object of metadata
    values under ["metadata"], each key present or not; [None] is a request
    without a JSON object. *)
Record AddRequest := mkAddRequest {
  text : option string;
  title : option string;
  metadata : option Metadata
}.

(** [not data] for such a body: there is none, or it has no key. *)
Definition add_request_falsy (data : option AddRequest) : bool :=
  match data with
  | None => true
  | Some r => negb (present (text r)) && negb (present (title r))
              && negb (present (metadata r))
  end.

(** [data[key]] for a key held as an option. *)
Definition subscript {A} (key : string) (o : option A) : Py A :=
  match o with
  | Some v => mret v
  | None => raise (KeyError (MStr key))
  end.

Definition add_document_endpoint (uuid4 : string) (data : option AddRequest) : Endpoint :=
  if add_request_falsy data || negb (present (data ≫= text))
  then λ c, ((ErrorMessage "No document text provided", 400%Z), c)
  else
    try_except
      (let title := default "Untitled Document" (data ≫= title) in
       let metadata := default ∅ (data ≫= metadata) in
       let metadata := <["title" := MStr title]> metadata in
       text' ← subscript "text" (data ≫= text);
       add_document uuid4 text' (Some metadata))
      (λ doc_id, (Added doc_id, 200%Z)).

Definition list_documents_endpoint : Endpoint :=
  try_except get_all_documents (λ documents, (Documents documents, 200%Z)).

Definition delete_document_endpoint (doc_id : string) : Endpoint :=
  try_except (delete_document doc_id) (λ _, (Success, 200%Z)).

(** The JSON body of [POST /generate_response], for the bodies that are
    objects with a string under ["prompt"] and a boolean under
    ["use_rag"], each key present or not. *)
Record GenerateRequest := mkGenerateRequest {
  prompt : option string;
  use_rag : option bool
}.

Definition generate_request_falsy (data : option GenerateRequest) : bool :=
  match data with
  | None => true
  | Some r => negb (present (prompt r)) && negb (present (use_rag r))
  end.

Section GenerateEndpoint.
Variable collection_query : Chroma.Collection → list string → Z → QueryResult.
Variable generate_content : string → string.

Definition generate_response_endpoint (data : option GenerateRequest) : Endpoint :=
  if generate_request_falsy data || negb (present (data ≫= prompt))
  then λ c, ((ErrorMessage "No prompt provided", 400%Z), c)
  else
    let use_rag := default true (data ≫= use_rag) in
    try_except
      (prompt' ← subscript "prompt" (data ≫= prompt);
       generate_response collection_query generate_content prompt' use_rag)
      (λ response_data, (Generated response_data, 200%Z)).
End GenerateEndpoint.

End Rag.

(** ** The calls of [generate_response] to the services *)

(** [generate_response] again, writing down the calls it makes to the two
    services outside the repository, in the order they are made:
    [collection.query], behind [vector_store.query], and
    [model.generate_content].  The record of the calls left out, this is
    [Rag.generate_response]. *)
Module Traced.

Inductive Call :=
  | Search (query_texts : list string) (n_results : Z)
  | Generate (prompt : string).

Record World := mkWorld {
  collection : Chroma.Collection;
  calls : list Call
}.

Definition M (A : Type) : Type := World → Outcome A * World.

#[global] Instance M_ret : MRet M := λ A a w, (Returned a, w).
#[global] Instance M_bind : MBind M := λ A B f m w,
  match m w with
  | (Returned a, w') => f a w'
  | (Raised e, w') => (Raised e, w')
  end.

(** A computation over the collection alone calls no service. *)
Definition of_py {A} (m : Py A) : M A :=
  λ w, match m (collection w) with
       | (o, c') => (o, mkWorld c' (calls w))
       end.

Definition record (call : Call) : M unit :=
  λ w, (Returned tt, mkWorld (collection w) (calls w ++ [call])).

Section Generate.
Variable collection_query : Chroma.Collection → list string → Z → Rag.QueryResult.
Variable generate_content : string → string.

(** [vector_store.query(query_text, n_results)] *)
Definition vector_store_query (query_text : string) (n_results : Z) : M Rag.QueryResult :=
  record (Search [query_text] n_results);;
  of_py (query collection_query query_text n_results).

(** [model.generate_content(prompt).text] *)
Definition model_generate_content (prompt : string) : M string :=
  record (Generate prompt);;
  mret (generate_content prompt).

Definition generate_response (prompt : string) (use_rag : bool) : M Rag.Reply :=
  if existsb (λ keyword, PyStr.contains keyword (PyStr.lower prompt))
             Rag.prohibited_keywords
  then mret (Rag.Refused Rag.refusal)
  else
    results ← (if use_rag
               then r ← vector_store_query prompt 5; mret (Some r)
               else mret None);
    context ← of_py (match results with
                     | Some r =>
                         if bool_decide (Rag.documents r ≠ [])
                         then first ← index (Rag.documents r) 0;
                              if bool_decide (first ≠ [])
                              then context_docs ← index (Rag.documents r) 0;
                                   mret (Rag.context_of context_docs)
                              else mret ""
                         else mret ""
                     | None => mret ""
                     end);
    let enhanced_prompt :=
      if PyStr.truthy context then Rag.enhanced_prompt_of context prompt else prompt in
    response ← model_generate_content enhanced_prompt;
    documents_used ← of_py (if use_rag && PyStr.truthy context
                            then match results with
                                 | Some r => index (Rag.documents r) 0
                                 | None => raise IndexError
                                 end
                            else mret []);
    mret (Rag.Answered (Rag.mkAnswer response (PyStr.truthy context) documents_used)).
End Generate.

End Traced.

(** * Properties *)

(** ** Strings *)

Lemma truthy_strip_iff p :
  PyStr.truthy (PyStr.strip p) = negb (Reference.whitespace_only p).
Proof.
  unfold PyStr.strip. induction p as [|c r IH]; [done|].
  simpl. destruct (PyStr.isspace c) eqn:Hc; [exact IH|].
  simpl. destruct (PyStr.rstrip r); by rewrite ?Hc.
Qed.

Lemma paragraphs_of_reference text :
  paragraphs_of text = Reference.candidate_paragraphs text.
Proof.
  unfold paragraphs_of, Reference.candidate_paragraphs.
  induction (PyStr.split PyStr.newline text) as [|p l IH]; [done|].
  simpl. by rewrite truthy_strip_iff, IH.
Qed.

(** ** The chunker *)

(** What the loop and the final [if current_chunk] give from any state of
    the two variables. *)
Lemma chunk_loop_accumulate max_chunk_size ps st :
  (let st' := fold_left (chunk_iter max_chunk_size) ps st in
   if PyStr.truthy (current_chunk st')
   then chunks st' ++ [PyStr.strip (current_chunk st')]
   else chunks st')
  = chunks st ++ loop_chunks max_chunk_size (current_chunk st) ps.
Proof.
  revert st. induction ps as [|p rest IH]; intros [done cur]; simpl.
  - destruct cur; simpl; by rewrite ?app_nil_r.
  - rewrite IH. unfold chunk_iter. simpl.
    destruct cur as [|a cur]; simpl.
    + by rewrite andb_false_r.
    + rewrite andb_true_r, Z.gtb_ltb, Z.leb_antisym.
      destruct (_ <? _)%Z; simpl; [by rewrite <-app_assoc|done].
Qed.

Lemma chunk_text_accumulate text max_chunk_size :
  _chunk_text text max_chunk_size
  = loop_chunks max_chunk_size "" (paragraphs_of text).
Proof.
  unfold _chunk_text.
  exact (chunk_loop_accumulate max_chunk_size (paragraphs_of text) (mkChunkLoop [] "")).
Qed.

Lemma length_lstrip s : String.length (PyStr.lstrip s) ≤ String.length s.
Proof. induction s as [|c r IH]; simpl; [done|]. destruct (PyStr.isspace c); simpl; lia. Qed.

Lemma length_rstrip s : String.length (PyStr.rstrip s) ≤ String.length s.
Proof.
  induction s as [|c r IH]; simpl; [done|].
  destruct (PyStr.rstrip r); [destruct (PyStr.isspace c)|]; simpl in *; lia.
Qed.

Lemma len_strip s : (PyStr.len (PyStr.strip s) ≤ PyStr.len s)%Z.
Proof.
  unfold PyStr.len, PyStr.strip.
  pose proof (length_rstrip (PyStr.lstrip s)). pose proof (length_lstrip s). lia.
Qed.

Lemma length_string_app s t :
  String.length (s +:+ t) = String.length s + String.length t.
Proof.
  induction s as [|c r IH]; [done|].
  change (String c r +:+ t) with (String c (r +:+ t)). simpl. by rewrite IH.
Qed.

Lemma len_joined s p :
  PyStr.len (s +:+ " " +:+ p) = (PyStr.len s + 1 + PyStr.len p)%Z.
Proof. unfold PyStr.len. rewrite !length_string_app. cbn. lia. Qed.

(** What the greedy test does guarantee: a chunk is one trimmed paragraph,
    or it is at most one character (the joining space that the test leaves
    out) over the budget. *)
Lemma accumulate_slack max_chunk_size (all : list string) ps :
  ∀ running c,
    (∀ p, p ∈ ps → p ∈ all) →
    (running ∈ all ∨ (PyStr.len running ≤ max_chunk_size + 1)%Z) →
    c ∈ loop_chunks max_chunk_size running ps →
    (∃ p, p ∈ all ∧ c = PyStr.strip p) ∨ (PyStr.len c ≤ max_chunk_size + 1)%Z.
Proof.
  assert (Hclose : ∀ running,
    (running ∈ all ∨ (PyStr.len running ≤ max_chunk_size + 1)%Z) →
    (∃ p, p ∈ all ∧ PyStr.strip running = PyStr.strip p)
    ∨ (PyStr.len (PyStr.strip running) ≤ max_chunk_size + 1)%Z).
  { intros running [?|?]; [left; eauto|right]. pose proof (len_strip running). lia. }
  induction ps as [|p rest IH]; intros running c Hall Hrun Hc.
  - destruct running; simpl in Hc; [by apply elem_of_nil in Hc|].
    apply list_elem_of_singleton in Hc as ->. by apply Hclose.
  - assert (p ∈ all) by (apply Hall; left).
    assert (∀ q, q ∈ rest → q ∈ all) by (intros; apply Hall; by right).
    destruct running as [|a running]; simpl in Hc.
    { apply (IH p c); auto. }
    destruct (_ <=? _)%Z eqn:Hfit.
    + apply (IH _ c) in Hc; auto. right.
      rewrite len_joined. apply Z.leb_le in Hfit. lia.
    + apply elem_of_cons in Hc as [->|Hc]; [by apply Hclose|].
      apply (IH p c); auto.
Qed.

Lemma chunk_text_slack text max_chunk_size c :
  c ∈ _chunk_text text max_chunk_size →
  (∃ p, p ∈ paragraphs_of text ∧ c = PyStr.strip p)
  ∨ (PyStr.len c ≤ max_chunk_size + 1)%Z.
Proof.
  rewrite chunk_text_accumulate. destruct (decide (0 ≤ max_chunk_size + 1)%Z).
  - apply accumulate_slack; [done|]. right. by cbn.
  - intros Hc. left. revert Hc.
    assert (Hgen : ∀ ps running,
      (∀ p, p ∈ ps → p ∈ paragraphs_of text) →
      (running = "" ∨ running ∈ paragraphs_of text) →
      c ∈ loop_chunks max_chunk_size running ps →
      ∃ p, p ∈ paragraphs_of text ∧ c = PyStr.strip p).
    { induction ps as [|p rest IH]; intros running Hall Hrun Hc.
      - destruct running; simpl in Hc; [by apply elem_of_nil in Hc|].
        apply list_elem_of_singleton in Hc as ->. destruct Hrun; [done|eauto].
      - assert (p ∈ paragraphs_of text) by (apply Hall; left).
        assert (∀ q, q ∈ rest → q ∈ paragraphs_of text) by (intros; apply Hall; by right).
        destruct running as [|a running]; simpl in Hc; [by apply (IH p); auto|].
        destruct (_ <=? _)%Z eqn:Hfit.
        + apply Z.leb_le in Hfit. unfold PyStr.len in Hfit. lia.
        + apply elem_of_cons in Hc as [->|Hc]; [destruct Hrun; [done|eauto]|].
          apply (IH p); auto. }
    apply Hgen; auto.
Qed.

(** C1 (as amended): with [max_chunk_size = 20] the text
    ["Para one.\nPara two.\n\nPara three."] gives two chunks. The first two
    paragraphs, nine characters each, pass the test [9 + 9 > 20] as
    fitting and are joined by a space; the third one, which would bring
    the total to 30, starts the second chunk. *)
Theorem chunk_three_paragraphs :
  _chunk_text three_paragraphs 20 = ["Para one. Para two."; "Para three."].
Proof. reflexivity. Qed.

(** C1 (as stated) fails: the result is not the three-chunk sequence. *)
Lemma chunk_three_paragraphs_not_three :
  _chunk_text three_paragraphs 20 ≠ ["Para one."; "Para two."; "Para three."].
Proof. intros Heq. vm_compute in Heq. discriminate. Qed.

(** C2: the budget is broken by a chunk of two short paragraphs. With
    [max_chunk_size = 10] the two five-character lines are joined, since
    [5 + 5 > 10] is false, into a chunk of eleven characters; neither
    paragraph is longer than the budget. The same happens under the
    default budget of [add_document]: two lines of 256 characters give one
    chunk of 513. *)
Theorem chunk_two_fives_over_budget :
  (paragraphs_of two_fives = ["aaaaa"; "bbbbb"]
   ∧ _chunk_text two_fives 10 = ["aaaaa bbbbb"]
   ∧ PyStr.len "aaaaa bbbbb" = 11%Z)
  ∧ (paragraphs_of two_halves = [line_of 256 "a"; line_of 256 "b"]
     ∧ _chunk_text two_halves default_max_chunk_size
       = [line_of 256 "a" +:+ " " +:+ line_of 256 "b"]
     ∧ PyStr.len (line_of 256 "a" +:+ " " +:+ line_of 256 "b") = 513%Z).
Proof. split; split_and!; by vm_compute. Qed.

(** The loop is the reference chunker run with one more character of
    budget: the test of the loop, [len(current_chunk) + len(paragraph)]
    against [max_chunk_size], is the test of the design document on the
    chunk joined by the space against [max_chunk_size + 1]. *)
Lemma loop_chunks_reference max_chunk_size ps :
  ∀ running,
    loop_chunks max_chunk_size running ps
    = Reference.accumulate (max_chunk_size + 1) running ps.
Proof.
  induction ps as [|p rest IH]; intros running; [done|].
  destruct running as [|a running]; cbn [loop_chunks Reference.accumulate]; [apply IH|].
  unfold Reference.appended. rewrite len_joined, !IH.
  destruct (Z.leb_spec (PyStr.len (String a running) + PyStr.len p) max_chunk_size),
    (Z.leb_spec (PyStr.len (String a running) + 1 + PyStr.len p) (max_chunk_size + 1));
    done || lia.
Qed.

(** C3: the chunker is not the reference chunker of the design document.
    With [max_chunk_size = 10] the text ["aaaaa\nbbbbb"] gives the single
    chunk ["aaaaa bbbbb"], where the reference, for which the chunk joined
    by the space would have eleven characters, closes ["aaaaa"] and starts
    a new chunk with ["bbbbb"]; under the default budget of 512 two lines
    of 256 characters differ the same way.  This is the test of C2 again.
    The rest of the reference is what the code does: on every text the
    chunker is the reference run with a budget of [max_chunk_size + 1];
    on a text with padded paragraphs and blank lines, far from the budget,
    the two give the same trimmed chunks; and a text whose lines are all
    blank gives no chunk. *)
Theorem chunk_text_departs_from_reference :
  (_chunk_text two_fives 10 = ["aaaaa bbbbb"]
   ∧ Reference.chunk two_fives 10 = ["aaaaa"; "bbbbb"])
  ∧ (_chunk_text two_halves default_max_chunk_size
     = [line_of 256 "a" +:+ " " +:+ line_of 256 "b"]
     ∧ Reference.chunk two_halves default_max_chunk_size
       = [line_of 256 "a"; line_of 256 "b"])
  ∧ (∀ text max_chunk_size,
       _chunk_text text max_chunk_size = Reference.chunk text (max_chunk_size + 1))
  ∧ (_chunk_text padded_paragraphs 20 = ["Para one."; "Para two."]
     ∧ Reference.chunk padded_paragraphs 20 = ["Para one."; "Para two."])
  ∧ (∀ text max_chunk_size,
       forallb Reference.whitespace_only (PyStr.split PyStr.newline text) = true →
       _chunk_text text max_chunk_size = []
       ∧ Reference.chunk text max_chunk_size = []).
Proof.
  split_and!; try by vm_compute.
  - intros text max_chunk_size.
    rewrite chunk_text_accumulate, paragraphs_of_reference. apply loop_chunks_reference.
  - intros text max_chunk_size Hblank.
    rewrite chunk_text_accumulate, paragraphs_of_reference. unfold Reference.chunk.
    assert (Reference.candidate_paragraphs text = []) as ->; [|done].
    unfold Reference.candidate_paragraphs.
    induction (PyStr.split PyStr.newline text) as [|p l IH]; [done|].
    simpl in *. apply andb_prop in Hblank as [-> ?]. simpl. auto.
Qed.

(** ** The monad *)

Lemma py_bind_returned {A B} (m : Py A) (f : A → Py B) c a c' :
  m c = (Returned a, c') → (m ≫= f) c = f a c'.
Proof. unfold mbind, Py_bind. by intros ->. Qed.

Lemma py_bind_raised {A B} (m : Py A) (f : A → Py B) c e c' :
  m c = (Raised e, c') → (m ≫= f) c = (Raised e, c').
Proof. unfold mbind, Py_bind. by intros ->. Qed.

Lemma index_lookup {A} (l : list A) i x c :
  l !! i = Some x → index l i c = (Returned x, c).
Proof. unfold index. by intros ->. Qed.

Ltac py_step :=
  first
    [ erewrite py_bind_returned by (first [ reflexivity | by apply index_lookup ])
    | erewrite py_bind_raised by reflexivity ].

(** ** Chunk identifiers *)

Lemma pretty_N_go_free_of x s : PyStr.free_of "_" s → PyStr.free_of "_" (pretty_N_go x s).
Proof.
  revert s. induction (N.lt_wf_0 x) as [x _ IH]; intros s Hs.
  destruct (decide (x = 0)%N) as [->|]; [by rewrite pretty_N_go_0|].
  rewrite pretty_N_go_step by lia. apply IH; [apply N.div_lt; lia|].
  split; [|done]. unfold pretty_N_char. by repeat case_match.
Qed.

Lemma pretty_nat_free_of (i : nat) : PyStr.free_of "_" (pretty i).
Proof.
  unfold pretty, pretty_nat, pretty, pretty_N. case_decide; [by repeat split|].
  by apply pretty_N_go_free_of.
Qed.

Lemma string_app_nil_l s : "" +:+ s = s.
Proof. reflexivity. Qed.

Lemma string_app_cons a s t : String a s +:+ t = String a (s +:+ t).
Proof. reflexivity. Qed.

Lemma underscore_not_free s t : ¬ PyStr.free_of "_" (s +:+ String "_" t).
Proof.
  induction s as [|a s IH]; rewrite ?string_app_nil_l, ?string_app_cons.
  - by intros [? _].
  - intros [_ ?]. by apply IH.
Qed.

(** A prefix, an underscore and an underscore-free tail: the string splits
    in one way only. *)
Lemma underscore_split_inj s1 s2 t1 t2 :
  PyStr.free_of "_" t1 → PyStr.free_of "_" t2 →
  s1 +:+ String "_" t1 = s2 +:+ String "_" t2 → s1 = s2 ∧ t1 = t2.
Proof.
  intros H1 H2. revert s2.
  induction s1 as [|a s1 IH]; intros [|b s2] Heq;
    rewrite ?string_app_nil_l, ?string_app_cons in Heq.
  - by injection Heq.
  - injection Heq as <- ->. by apply underscore_not_free in H1.
  - injection Heq as -> <-. by apply underscore_not_free in H2.
  - injection Heq as -> Heq. apply IH in Heq as [-> ->]. done.
Qed.

Lemma chunk_id_of_inj d1 d2 i j :
  chunk_id_of d1 i = chunk_id_of d2 j → d1 = d2 ∧ i = j.
Proof.
  unfold chunk_id_of. intros Heq.
  apply (underscore_split_inj d1 d2 (pretty i) (pretty j)) in Heq as [-> Hp];
    auto using pretty_nat_free_of.
  split; [done|]. by apply (inj pretty).
Qed.

(** ** [add_document] *)

Lemma chroma_add_fresh x c :
  Chroma.id x ∉ Chroma.id <$> c → Chroma.add x c = c ++ [x].
Proof. intros Hx. unfold Chroma.add. by rewrite bool_decide_eq_false_2. Qed.

(** With identifiers that the collection does not hold yet, the loop
    appends one item per chunk, in order. *)
Lemma add_loop_fresh d md chunks :
  ∀ start c,
    (∀ i, start ≤ i < start + length chunks → chunk_id_of d i ∉ Chroma.id <$> c) →
    for_each (λ (_ : unit) '(i, chunk),
        collection_add (Chroma.mkItem (chunk_id_of d i) chunk (chunk_metadata_of md d i)))
      (enumerate_from start chunks) tt c
    = (Returned tt, c ++ imap (λ i, stored_item d md (start + i)) chunks).
Proof.
  induction chunks as [|chunk rest IH]; intros start c Hfresh; simpl.
  { by rewrite app_nil_r. }
  py_step. unfold collection_add at 1.
  rewrite chroma_add_fresh by (apply Hfresh; simpl; lia).
  rewrite IH.
  - rewrite <-app_assoc. do 2 f_equal. simpl. unfold stored_item at 2.
    rewrite Nat.add_0_r. f_equal. apply imap_ext. intros i x _. simpl.
    by rewrite Nat.add_succ_r.
  - intros i Hi. rewrite fmap_app. simpl. intros [Hin|Hin]%elem_of_app.
    + revert Hin. apply Hfresh. simpl. lia.
    + apply list_elem_of_singleton in Hin. apply chunk_id_of_inj in Hin. lia.
Qed.

Lemma add_document_fresh uuid4 text metadata c :
  (∀ i, i < length (_chunk_text text default_max_chunk_size) →
        chunk_id_of uuid4 i ∉ Chroma.id <$> c) →
  add_document uuid4 text metadata c
  = (Returned uuid4,
     c ++ imap (stored_item uuid4 (metadata_or_empty metadata))
               (_chunk_text text default_max_chunk_size)).
Proof.
  intros Hfresh. unfold add_document, enumerate.
  erewrite py_bind_returned; [reflexivity|].
  rewrite add_loop_fresh; [done|]. intros i Hi. apply Hfresh. lia.
Qed.

Lemma stored_item_metadata d md i chunk :
  Chroma.metadata (stored_item d md i chunk) !! "doc_id" = Some (MStr d)
  ∧ Chroma.metadata (stored_item d md i chunk) !! "chunk_index" = Some (MInt (Z.of_nat i))
  ∧ ∀ k, k ≠ "doc_id" → k ≠ "chunk_index" →
         Chroma.metadata (stored_item d md i chunk) !! k = md !! k.
Proof.
  unfold stored_item, chunk_metadata_of. simpl. split_and!.
  - by rewrite lookup_insert_ne, lookup_insert_eq.
  - by rewrite lookup_insert_eq.
  - intros k ??. by rewrite !lookup_insert_ne.
Qed.

(** C4: the generated identifier being new to the collection,
    [add_document] returns it and appends, for the chunk at position [i],
    the item with id [doc_id + "_" + str(i)], the chunk as text, and the
    caller's metadata with [doc_id] and [chunk_index] set over whatever the
    caller put under these keys; the items already there are untouched.
    With no chunk at all it returns the identifier just the same and the
    collection is as it was. *)
Theorem add_document_persists uuid4 text metadata c :
  let chunks := _chunk_text text default_max_chunk_size in
  let md := metadata_or_empty metadata in
  (chunks = [] → add_document uuid4 text metadata c = (Returned uuid4, c))
  ∧ ((∀ i, i < length chunks → chunk_id_of uuid4 i ∉ Chroma.ids (Chroma.get c)) →
     add_document uuid4 text metadata c
     = (Returned uuid4, c ++ imap (stored_item uuid4 md) chunks)
     ∧ length (add_document uuid4 text metadata c).2 = length c + length chunks
     ∧ ∀ i chunk, chunks !! i = Some chunk →
         ∃ x, (add_document uuid4 text metadata c).2 !! (length c + i) = Some x
              ∧ Chroma.id x = uuid4 +:+ "_" +:+ pretty i
              ∧ Chroma.document x = chunk
              ∧ Chroma.metadata x !! "doc_id" = Some (MStr uuid4)
              ∧ Chroma.metadata x !! "chunk_index" = Some (MInt (Z.of_nat i))
              ∧ ∀ k, k ≠ "doc_id" → k ≠ "chunk_index" →
                     Chroma.metadata x !! k = md !! k).
Proof.
  intros chunks md. split.
  - intros Hnil. rewrite add_document_fresh.
    + fold chunks. rewrite Hnil. simpl. by rewrite app_nil_r.
    + fold chunks. rewrite Hnil. simpl. lia.
  - intros Hfresh. rewrite add_document_fresh by exact Hfresh. cbn [snd].
    fold chunks md. split_and!; [done|by rewrite length_app, length_imap|].
    intros i chunk Hi. exists (stored_item uuid4 md i chunk).
    destruct (stored_item_metadata uuid4 md i chunk) as (? & ? & ?).
    split_and!; try done.
    rewrite lookup_app_r by lia. replace (length c + i - length c) with i by lia.
    rewrite list_lookup_imap. by rewrite Hi.
Qed.

Lemma add_document_persists_witness :
  add_document "u" three_paragraphs (Some {["title" := MStr "X"]}) []
  = (Returned "u",
     [ stored_item "u" {["title" := MStr "X"]} 0 "Para one. Para two. Para three." ])
  ∧ add_document "u" "" None [owned_item] = (Returned "u", [owned_item]).
Proof.
  split.
  - destruct (add_document_persists "u" three_paragraphs
                (Some {["title" := MStr "X"]}) []) as [_ Happ].
    destruct Happ as [Heq _]; [intros i _; apply not_elem_of_nil|].
    etrans; [exact Heq|]. reflexivity.
  - destruct (add_document_persists "u" "" None [owned_item]) as [Hnil _].
    apply Hnil. reflexivity.
Defined.

(** ** [delete_document] *)

Lemma delete_loop d (all : list Chroma.Item) c2 :
  ∀ c1 acc c,
    all = c1 ++ c2 →
    for_each (λ (to_delete : list string) '(i, metadata),
        if bool_decide (metadata !! "doc_id" = Some (MStr d))
        then x ← index (Chroma.ids (Chroma.get all)) i; mret (to_delete ++ [x])
        else mret to_delete)
      (enumerate_from (length c1) (Chroma.metadata <$> c2)) acc c
    = (Returned (acc ++ (Chroma.id <$> filter (carries d) c2)), c).
Proof.
  induction c2 as [|x rest IH]; intros c1 acc c Hall; simpl.
  { by rewrite app_nil_r. }
  assert (Hnext : all = (c1 ++ [x]) ++ rest) by (by rewrite <-app_assoc).
  specialize (IH (c1 ++ [x])). rewrite length_app in IH. simpl in IH.
  rewrite Nat.add_1_r in IH.
  rewrite filter_cons. unfold carries at 1. case_bool_decide as Hx.
  - erewrite py_bind_returned.
    2:{ erewrite py_bind_returned; [reflexivity|]. apply index_lookup.
        simpl. rewrite Hall, list_lookup_fmap, list_lookup_middle by done. done. }
    rewrite decide_True by done. rewrite IH by done.
    by rewrite fmap_cons, <-app_assoc.
  - erewrite py_bind_returned by reflexivity.
    rewrite decide_False by done. by rewrite IH.
Qed.

Lemma chroma_delete_nil c : Chroma.delete [] c = c.
Proof.
  unfold Chroma.delete. induction c as [|x c IH]; [done|].
  rewrite filter_cons_True by apply not_elem_of_nil. by rewrite IH.
Qed.

(** [delete_document] returns, and what it leaves is the collection
    without the items whose id was collected. *)
Lemma delete_document_eq d c :
  delete_document d c
  = (Returned tt, Chroma.delete (Chroma.id <$> filter (carries d) c) c).
Proof.
  unfold delete_document.
  erewrite py_bind_returned by reflexivity.
  erewrite py_bind_returned by (apply (delete_loop d c c [] [] c); done).
  simpl. case_bool_decide as Hnil; [done|].
  rewrite Hnil. unfold mret, Py_ret.
  by rewrite chroma_delete_nil.
Qed.

Lemma NoDup_fmap_elem_inj {A B} (f : A → B) (l : list A) x y :
  NoDup (f <$> l) → x ∈ l → y ∈ l → f x = f y → x = y.
Proof.
  induction l as [|a l IH]; intros Hnd Hx Hy Hf; [by apply elem_of_nil in Hx|].
  rewrite fmap_cons in Hnd. apply NoDup_cons in Hnd as [Ha Hnd].
  apply elem_of_cons in Hx as [->|Hx]; apply elem_of_cons in Hy as [->|Hy]; auto.
  - exfalso. apply Ha. rewrite Hf. by apply list_elem_of_fmap_2.
  - exfalso. apply Ha. rewrite <-Hf. by apply list_elem_of_fmap_2.
Qed.

Lemma filter_ext_elem {A} (P Q : A → Prop)
    `{!∀ x, Decision (P x), !∀ x, Decision (Q x)} (l : list A) :
  (∀ x, x ∈ l → P x ↔ Q x) → filter P l = filter Q l.
Proof.
  induction l as [|a l IH]; intros Hext; [done|].
  assert (filter P l = filter Q l) as Hrest.
  { apply IH. intros x Hx. apply Hext. by right. }
  destruct (decide (P a)) as [Ha|Ha].
  - rewrite !filter_cons_True; [by rewrite Hrest| |done]. apply Hext; [left|done].
  - rewrite !filter_cons_False; [done| |done]. intros Hq. apply Ha, Hext; [left|done].
Qed.

(** With unique ids, deleting the collected ids removes the items of the
    document and nothing else. *)
Lemma chroma_delete_carried d c :
  Chroma.wf c →
  Chroma.delete (Chroma.id <$> filter (carries d) c) c = filter (λ x, ¬ carries d x) c.
Proof.
  intros Hwf. unfold Chroma.delete. apply filter_ext_elem.
  intros x Hx. split.
  - intros Hid Hcar. apply Hid. apply list_elem_of_fmap_2.
    by apply list_elem_of_filter.
  - intros Hcar (y & Hxy & [Hy Hyc]%list_elem_of_filter)%list_elem_of_fmap.
    assert (x = y) by (by apply (NoDup_fmap_elem_inj Chroma.id c)). by subst.
Qed.

Lemma delete_document_none_left d c x :
  x ∈ (delete_document d c).2 → ¬ carries d x.
Proof.
  rewrite delete_document_eq. simpl. unfold Chroma.delete.
  intros [Hid Hx]%list_elem_of_filter Hcar. apply Hid.
  apply list_elem_of_fmap_2. by apply list_elem_of_filter.
Qed.

Lemma filter_carries_none d (c : list Chroma.Item) :
  (∀ x, x ∈ c → ¬ carries d x) → filter (carries d) c = [].
Proof.
  intros Hnone. induction c as [|x c IH]; [done|].
  rewrite filter_cons_False by (apply Hnone; left).
  apply IH. intros y Hy. apply Hnone. by right.
Qed.

Lemma delete_document_no_match d c :
  (∀ x, x ∈ c → ¬ carries d x) → delete_document d c = (Returned tt, c).
Proof.
  intros Hnone. rewrite delete_document_eq, filter_carries_none by done.
  by rewrite chroma_delete_nil.
Qed.

(** ** [get_all_documents] *)

Lemma get_all_documents_body_eq (all : list Chroma.Item) c1 x rest dm doc_id c :
  all = c1 ++ x :: rest →
  get_all_documents_body (Chroma.get all) dm (length c1, doc_id) c
  = (group_item dm x, c).
Proof.
  intros Hall.
  assert ((Chroma.metadata <$> all) !! length c1 = Some (Chroma.metadata x)) as Hmd.
  { by rewrite Hall, list_lookup_fmap, list_lookup_middle. }
  assert ((Chroma.document <$> all) !! length c1 = Some (Chroma.document x)) as Hdoc.
  { by rewrite Hall, list_lookup_fmap, list_lookup_middle. }
  unfold get_all_documents_body, group_item, index, getitem. simpl.
  rewrite Hmd, Hdoc. unfold mbind, Py_bind, mret, Py_ret, raise.
  destruct (Chroma.metadata x !! "doc_id") as [base_id|]; [|done].
  destruct (doc_map_contains dm base_id); simpl;
    by destruct (doc_map_increment _ base_id).
Qed.

Lemma group_loop (all : list Chroma.Item) c2 :
  ∀ c1 dm c,
    all = c1 ++ c2 →
    for_each (get_all_documents_body (Chroma.get all))
             (enumerate_from (length c1) (Chroma.id <$> c2)) dm c
    = (group_items dm c2, c).
Proof.
  induction c2 as [|x rest IH]; intros c1 dm c Hall; simpl; [done|].
  specialize (IH (c1 ++ [x])). rewrite length_app, Nat.add_1_r in IH.
  pose proof (get_all_documents_body_eq all c1 x rest dm (Chroma.id x) c Hall) as Hbody.
  destruct (group_item dm x) as [dm'|e].
  - erewrite py_bind_returned by exact Hbody. apply IH. by rewrite <-app_assoc.
  - by erewrite py_bind_raised by exact Hbody.
Qed.

(** The listing is the grouping of the items, read in store order. *)
Lemma get_all_documents_eq c :
  get_all_documents c
  = (match group_items [] c with
     | Returned doc_map => Returned (doc_map.*2)
     | Raised e => Raised e
     end, c).
Proof.
  unfold get_all_documents. erewrite py_bind_returned by reflexivity.
  pose proof (group_loop c c [] [] c eq_refl) as Hloop. simpl in Hloop.
  unfold enumerate. simpl.
  destruct (group_items [] c) as [dm|e].
  - by erewrite py_bind_returned by exact Hloop.
  - by erewrite py_bind_raised by exact Hloop.
Qed.

Lemma doc_map_set_fresh dm k v :
  doc_map_contains dm k = false → doc_map_set dm k v = dm ++ [(k, v)].
Proof.
  unfold doc_map_contains. intros Hk%bool_decide_eq_false.
  induction dm as [|[k' w] dm IH]; [done|]. simpl in *.
  rewrite decide_False by (intros ->; apply Hk; left).
  rewrite IH; [done|]. intros ?. apply Hk. by right.
Qed.

Lemma doc_map_increment_present dm k :
  k ∈ dm.*1 →
  ∃ dm', doc_map_increment dm k = Some dm' ∧ dm'.*1 = dm.*1
         ∧ Summary.id <$> dm'.*2 = Summary.id <$> dm.*2.
Proof.
  induction dm as [|[k' w] dm IH]; intros Hk; [by apply elem_of_nil in Hk|].
  simpl. destruct (decide (k' = k)) as [->|Hne]; [by eexists|].
  simpl in Hk. apply elem_of_cons in Hk as [?|Hk]; [congruence|].
  destruct (IH Hk) as (dm' & -> & Hkeys & Hids). simpl.
  exists ((k', w) :: dm'). split; [done|]. rewrite !fmap_cons. by rewrite Hkeys, Hids.
Qed.

(** One step of the grouping: what it does to the keys and the ids. *)
Lemma group_item_keys dm x dm' :
  group_item dm x = Returned dm' →
  Summary.id <$> dm.*2 = dm.*1 →
  ∃ b, Chroma.metadata x !! "doc_id" = Some b
       ∧ Summary.id <$> dm'.*2 = dm'.*1
       ∧ dm'.*1 = (if doc_map_contains dm b then dm.*1 else dm.*1 ++ [b]).
Proof.
  unfold group_item. destruct (Chroma.metadata x !! "doc_id") as [b|]; [|done].
  intros Hstep Hids. exists b. split; [done|].
  destruct (doc_map_contains dm b) eqn:Hin; cbn [negb] in Hstep.
  - apply bool_decide_eq_true in Hin.
    destruct (doc_map_increment_present dm b Hin) as (dm2 & Hinc & Hk & Hi).
    rewrite Hinc in Hstep. injection Hstep as <-. by rewrite Hk, Hi.
  - rewrite doc_map_set_fresh in Hstep by done.
    edestruct (doc_map_increment_present (dm ++ [(b, Summary.mk b
      (strip_reserved (Chroma.metadata x)) 0
      (PyStr.prefix 100 (Chroma.document x) +:+ "..."))]) b)
      as (dm2 & Hinc & Hk & Hi).
    { rewrite fmap_app. apply elem_of_app. right. simpl. left. }
    rewrite Hinc in Hstep. injection Hstep as <-. rewrite Hk, Hi.
    rewrite !fmap_app. simpl. by rewrite Hids.
Qed.

Lemma group_items_keys items :
  ∀ dm dm',
    group_items dm items = Returned dm' →
    Summary.id <$> dm.*2 = dm.*1 →
    Summary.id <$> dm'.*2 = dm'.*1
    ∧ ∀ k, k ∈ dm'.*1 →
           k ∈ dm.*1 ∨ ∃ x, x ∈ items ∧ Chroma.metadata x !! "doc_id" = Some k.
Proof.
  induction items as [|x rest IH]; intros dm dm' Hrun Hids; simpl in Hrun.
  { injection Hrun as <-. auto. }
  destruct (group_item dm x) as [dm1|] eqn:Hstep; [|done].
  destruct (group_item_keys dm x dm1 Hstep Hids) as (b & Hb & Hids1 & Hkeys1).
  destruct (IH dm1 dm' Hrun Hids1) as [Hids' Hsub]. split; [done|].
  intros k Hk. destruct (Hsub k Hk) as [Hin|(y & Hy & Hyk)].
  - rewrite Hkeys1 in Hin. destruct (doc_map_contains dm b); [by left|].
    apply elem_of_app in Hin as [?|Hin]; [by left|].
    apply list_elem_of_singleton in Hin as ->. right. exists x. split; [left|done].
  - right. exists y. split; [by right|done].
Qed.

(** The listing only mentions documents that some item belongs to. *)
Lemma get_all_documents_reports c d :
  reports (get_all_documents c).1 d → ∃ x, x ∈ c ∧ carries d x.
Proof.
  rewrite get_all_documents_eq. simpl.
  destruct (group_items [] c) as [dm|] eqn:Hrun; simpl; [|done].
  destruct (group_items_keys c [] dm Hrun eq_refl) as [Hids Hsub].
  rewrite Hids. intros Hd. destruct (Hsub _ Hd) as [Hnil|Hx]; [|done].
  by apply elem_of_nil in Hnil.
Qed.

Lemma group_item_total dm x :
  is_Some (Chroma.metadata x !! "doc_id") → ∃ dm', group_item dm x = Returned dm'.
Proof.
  intros [b Hb]. unfold group_item. rewrite Hb.
  destruct (doc_map_contains dm b) eqn:Hin; cbn [negb].
  - apply bool_decide_eq_true in Hin.
    destruct (doc_map_increment_present dm b Hin) as (dm2 & -> & _). by eexists.
  - rewrite doc_map_set_fresh by done.
    edestruct (doc_map_increment_present) as (dm2 & -> & _); [|by eexists].
    rewrite fmap_app. apply elem_of_app. right. simpl. left.
Qed.

(** The grouping goes through when every item has a [doc_id]. *)
Lemma group_items_total items :
  ∀ dm,
    (∀ x, x ∈ items → is_Some (Chroma.metadata x !! "doc_id")) →
    ∃ dm', group_items dm items = Returned dm'.
Proof.
  induction items as [|x rest IH]; intros dm Hall; simpl; [by eexists|].
  destruct (group_item_total dm x) as [dm1 ->]; [apply Hall; left|].
  apply IH. intros y Hy. apply Hall. by right.
Qed.

(** It stops with [KeyError('doc_id')] at the first item without one. *)
Lemma group_items_missing items :
  ∀ dm x,
    x ∈ items → Chroma.metadata x !! "doc_id" = None →
    group_items dm items = Raised (KeyError (MStr "doc_id")).
Proof.
  induction items as [|y rest IH]; intros dm x Hx Hnone; [by apply elem_of_nil in Hx|].
  simpl. destruct (Chroma.metadata y !! "doc_id") as [b|] eqn:Hy.
  - destruct (group_item_total dm y) as [dm1 ->]; [by eexists|].
    apply elem_of_cons in Hx as [->|Hx]; [congruence|]. by apply (IH dm1 x).
  - unfold group_item. by rewrite Hy.
Qed.

(** C7: [delete_document] returns; afterwards no item of the document is
    left and the listing does not mention it; in a collection with unique
    ids the items that do not belong to the document are all still there,
    unchanged and in the same order. *)
Theorem delete_document_removes d c :
  (delete_document d c).1 = Returned tt
  ∧ (∀ x, x ∈ (delete_document d c).2 → ¬ carries d x)
  ∧ (Chroma.wf c → (delete_document d c).2 = filter (λ x, ¬ carries d x) c)
  ∧ ¬ reports (get_all_documents (delete_document d c).2).1 d.
Proof.
  split_and!.
  - by rewrite delete_document_eq.
  - apply delete_document_none_left.
  - intros Hwf. rewrite delete_document_eq. simpl. by apply chroma_delete_carried.
  - intros (x & Hx & Hcar)%get_all_documents_reports.
    by apply (delete_document_none_left d c x).
Qed.

Lemma delete_document_removes_witness :
  (delete_document "a" [owned_item; stray_item]).2 = [stray_item].
Proof.
  destruct (delete_document_removes "a" [owned_item; stray_item]) as (_ & _ & Hrest & _).
  assert (Chroma.wf [owned_item; stray_item]) as Hwf.
  { unfold Chroma.wf. apply (bool_decide_unpack _). vm_compute. exact I. }
  etrans; [exact (Hrest Hwf)|reflexivity].
Defined.

(** C8: with no item of the document in the collection, [delete_document]
    returns and leaves the collection as it was; and deleting twice in a
    row ends as deleting once does. *)
Theorem delete_document_idempotent d c :
  (filter (carries d) c = [] → delete_document d c = (Returned tt, c))
  ∧ (delete_document d;; delete_document d) c = delete_document d c.
Proof.
  split.
  - intros Hnone. rewrite delete_document_eq, Hnone. by rewrite chroma_delete_nil.
  - erewrite py_bind_returned by apply delete_document_eq.
    rewrite (delete_document_eq d c). apply delete_document_no_match.
    intros x Hx. apply (delete_document_none_left d c x).
    by rewrite delete_document_eq.
Qed.

Lemma delete_document_idempotent_witness :
  delete_document "b" [owned_item; stray_item] = (Returned tt, [owned_item; stray_item]).
Proof.
  destruct (delete_document_idempotent "b" [owned_item; stray_item]) as [Hnone _].
  apply Hnone. reflexivity.
Defined.

(** C10: the listing reads [doc_id] with [md["doc_id"]]. It returns for
    every collection whose items all have the key, which the items written
    by [add_document] do, and it raises [KeyError('doc_id')], leaving the
    collection alone, as soon as one item lacks it, as in the collection
    made of [owned_item] and [stray_item]. [delete_document] reads the key
    with [.get]: it always returns, and in a collection with unique ids
    the items without the key stay. *)
Theorem listing_needs_doc_id :
  (∀ c, (∀ x, x ∈ c → is_Some (Chroma.metadata x !! "doc_id")) →
        ∃ docs, get_all_documents c = (Returned docs, c))
  ∧ (∀ d md i chunk, is_Some (Chroma.metadata (stored_item d md i chunk) !! "doc_id"))
  ∧ (∀ c x, x ∈ c → Chroma.metadata x !! "doc_id" = None →
            get_all_documents c = (Raised (KeyError (MStr "doc_id")), c))
  ∧ get_all_documents [owned_item; stray_item]
    = (Raised (KeyError (MStr "doc_id")), [owned_item; stray_item])
  ∧ (∀ d c, (delete_document d c).1 = Returned tt
            ∧ (Chroma.wf c → ∀ x, x ∈ c → Chroma.metadata x !! "doc_id" = None →
                             x ∈ (delete_document d c).2)).
Proof.
  split_and!.
  - intros c Hall. rewrite get_all_documents_eq.
    destruct (group_items_total c [] Hall) as [dm ->]. by eexists.
  - intros d md i chunk. exists (MStr d). apply stored_item_metadata.
  - intros c x Hx Hnone. rewrite get_all_documents_eq.
    by rewrite (group_items_missing c [] x).
  - reflexivity.
  - intros d c. rewrite delete_document_eq. split; [done|]. simpl.
    intros Hwf x Hx Hnone. rewrite chroma_delete_carried by done.
    apply list_elem_of_filter. split; [|done]. unfold carries. by rewrite Hnone.
Qed.

Lemma listing_needs_doc_id_witness :
  (∃ docs, get_all_documents [owned_item] = (Returned docs, [owned_item]))
  ∧ get_all_documents [stray_item] = (Raised (KeyError (MStr "doc_id")), [stray_item])
  ∧ stray_item ∈ (delete_document "a" [owned_item; stray_item]).2.
Proof.
  destruct listing_needs_doc_id as (Hlist & _ & Hfail & _ & Hdel). split_and!.
  - apply Hlist. intros x ->%list_elem_of_singleton. by eexists.
  - apply (Hfail [stray_item] stray_item); [left|reflexivity].
  - apply (Hdel "a" [owned_item; stray_item]).
    + unfold Chroma.wf. apply (bool_decide_unpack _). vm_compute. exact I.
    + right. left.
    + reflexivity.
Defined.

(** ** Adding, then listing *)

Lemma strip_reserved_chunk_metadata md d i :
  md !! "doc_id" = None → md !! "chunk_index" = None →
  strip_reserved (chunk_metadata_of md d i) = md.
Proof.
  intros Hd Hi. unfold strip_reserved, chunk_metadata_of.
  rewrite !map_filter_insert_not by (intros y; simpl; set_solver).
  apply map_filter_id. intros k v Hk. simpl.
  intros [->|[->|[]%elem_of_nil]%elem_of_cons]%elem_of_cons; congruence.
Qed.

(** Items of one document met after its entry was opened only count. *)
Lemma group_items_same_doc d items :
  ∀ m n t,
    (∀ x, x ∈ items → carries d x) →
    group_items [(MStr d, Summary.mk (MStr d) m n t)] items
    = Returned [(MStr d, Summary.mk (MStr d) m (n + Z.of_nat (length items)) t)].
Proof.
  induction items as [|x rest IH]; intros m n t Hall.
  { simpl. by rewrite Z.add_0_r. }
  cbn [group_items]. unfold group_item. rewrite (Hall x) by left.
  unfold doc_map_contains. rewrite bool_decide_eq_true_2 by (simpl; left).
  cbn [negb doc_map_increment]. rewrite decide_True by done. cbn [Summary.id
    Summary.metadata Summary.chunk_count Summary.sample_text].
  rewrite IH by (intros y Hy; apply Hall; by right).
  do 4 f_equal. simpl length. lia.
Qed.

Lemma stored_items_carry d md chunks x :
  x ∈ imap (stored_item d md) chunks → carries d x.
Proof.
  intros (i & chunk & -> & _)%elem_of_lookup_imap. apply stored_item_metadata.
Qed.

(** [s[:n]] is the [n] first characters of [s], all of [s] when it has
    fewer. *)
Lemma prefix_substring n s : PyStr.prefix n s = String.substring 0 n s.
Proof.
  revert s. induction n as [|n IH]; intros [|c r]; cbn [PyStr.prefix substring]; [done..|].
  by rewrite IH.
Qed.

(** C6: on an empty store, [add_document] of a text with at least one
    chunk and of metadata without the reserved keys, then the listing: one
    summary, with the generated id, the caller's metadata, the number of
    chunks of the text and the first 100 characters of the first chunk,
    the substring of length 100 from position 0, followed by ["..."]. *)
Theorem add_then_list uuid4 text metadata :
  let chunks := _chunk_text text default_max_chunk_size in
  let md := metadata_or_empty metadata in
  chunks ≠ [] → md !! "doc_id" = None → md !! "chunk_index" = None →
  get_all_documents (add_document uuid4 text metadata []).2
  = (Returned [Summary.mk (MStr uuid4) md (Z.of_nat (length chunks))
                          (String.substring 0 100 (hd "" chunks) +:+ "...")],
     (add_document uuid4 text metadata []).2).
Proof.
  intros chunks md Hne Hd Hi.
  rewrite add_document_fresh by (intros; apply not_elem_of_nil).
  fold chunks md. cbn [snd app]. rewrite get_all_documents_eq. f_equal.
  pose proof (stored_items_carry uuid4 md chunks) as Hcarry.
  destruct chunks as [|chunk rest]; [done|]. rewrite imap_cons in *.
  cbn [group_items]. unfold group_item at 1.
  destruct (stored_item_metadata uuid4 md 0 chunk) as (-> & _ & _).
  cbn [doc_map_contains negb]. unfold doc_map_contains.
  rewrite bool_decide_eq_false_2 by apply not_elem_of_nil.
  cbn [negb doc_map_set doc_map_increment]. rewrite decide_True by done.
  cbn [Summary.id Summary.metadata Summary.chunk_count Summary.sample_text].
  rewrite group_items_same_doc by (intros x Hx; apply Hcarry; by right).
  unfold stored_item at 1 2. cbn [Chroma.metadata Chroma.document hd fmap list_fmap snd].
  rewrite strip_reserved_chunk_metadata by done. rewrite length_imap.
  rewrite prefix_substring. do 3 f_equal. simpl length. lia.
Qed.

Lemma add_then_list_witness :
  _chunk_text long_document default_max_chunk_size = [line_of 150 "a"; line_of 400 "b"]
  ∧ get_all_documents
      (add_document "u" long_document (Some {["title" := MStr "X"]}) []).2
    = (Returned [Summary.mk (MStr "u") {["title" := MStr "X"]} 2
                            (line_of 100 "a" +:+ "...")],
       [stored_item "u" {["title" := MStr "X"]} 0 (line_of 150 "a");
        stored_item "u" {["title" := MStr "X"]} 1 (line_of 400 "b")]).
Proof.
  split; [by vm_compute|].
  etrans; [apply (add_then_list "u" long_document (Some {["title" := MStr "X"]}))|].
  - vm_compute. discriminate.
  - reflexivity.
  - reflexivity.
  - by vm_compute.
Defined.

(** ** Validation *)

(** C9 (as stated) fails: [add_document] of the empty text raises nothing. *)
Lemma add_document_empty_text_not_rejected :
  ¬ ∃ e, (add_document "doc" "" None []).1 = Raised e.
Proof. intros [e He]. vm_compute in He. discriminate. Qed.

(** C9 (as amended): neither method checks its text. [add_document] of the
    empty text returns the generated identifier and leaves the collection
    as it was; [query] of the empty text hands it to the search of the
    engine, returns the answer and leaves the collection as it was. *)
Theorem empty_text_not_validated {QueryResult}
    (collection_query : Chroma.Collection → list string → Z → QueryResult)
    uuid4 metadata n_results c :
  add_document uuid4 "" metadata c = (Returned uuid4, c)
  ∧ query collection_query "" n_results c
    = (Returned (collection_query c [""] n_results), c).
Proof.
  split; [|done]. rewrite add_document_fresh.
  - simpl. by rewrite app_nil_r.
  - simpl. lia.
Qed.

(** ** Histories *)

Lemma chunk_indexes_app d (c1 c2 : list Chroma.Item) :
  chunk_indexes d (c1 ++ c2) = chunk_indexes d c1 ++ chunk_indexes d c2.
Proof. unfold chunk_indexes. by rewrite filter_app, fmap_app. Qed.

Lemma chunk_indexes_none d (c : list Chroma.Item) :
  (∀ x, x ∈ c → ¬ carries d x) → chunk_indexes d c = [].
Proof. intros Hnone. unfold chunk_indexes. by rewrite filter_carries_none. Qed.

Lemma chunk_indexes_new d md chunks :
  ∀ start,
    chunk_indexes d (imap (λ i, stored_item d md (start + i)) chunks)
    = (λ i, Some (MInt (Z.of_nat i))) <$> seq start (length chunks).
Proof.
  unfold chunk_indexes.
  induction chunks as [|chunk rest IH]; intros start; [done|].
  rewrite imap_cons, filter_cons_True by apply stored_item_metadata.
  rewrite fmap_cons. destruct (stored_item_metadata d md (start + 0) chunk) as (_ & -> & _).
  rewrite Nat.add_0_r. cbn [length seq]. rewrite fmap_cons. f_equal.
  rewrite <-(IH (S start)). do 2 f_equal. apply imap_ext. intros i x _. simpl.
  by rewrite Nat.add_succ_r.
Qed.

Lemma chunk_indexes_stored d md chunks :
  chunk_indexes d (imap (stored_item d md) chunks) = zero_based (length chunks).
Proof. exact (chunk_indexes_new d md chunks 0). Qed.

Lemma length_zero_based n : length (zero_based n) = n.
Proof. unfold zero_based. by rewrite length_fmap, length_seq. Qed.

Lemma NoDup_fmap_filter {A B} (f : A → B) (P : A → Prop) `{!∀ x, Decision (P x)}
    (l : list A) :
  NoDup (f <$> l) → NoDup (f <$> filter P l).
Proof.
  induction l as [|a l IH]; [done|]. rewrite fmap_cons, NoDup_cons. intros [Ha Hl].
  rewrite filter_cons. case_decide; [|by apply IH].
  rewrite fmap_cons. apply NoDup_cons. split; [|by apply IH].
  intros (y & Hy & [_ Hin]%list_elem_of_filter)%list_elem_of_fmap.
  apply Ha. rewrite Hy. by apply list_elem_of_fmap_2.
Qed.

Lemma stored_ids_NoDup d md chunks :
  NoDup (Chroma.id <$> imap (stored_item d md) chunks).
Proof.
  apply NoDup_alt. intros i j s.
  rewrite !list_lookup_fmap, !list_lookup_imap.
  destruct (chunks !! i), (chunks !! j); simpl; try done.
  intros [= <-] [= Hj]. by apply chunk_id_of_inj in Hj as [_ ->].
Qed.

(** An identifier not generated before is new to the collection. *)
Lemma store_inv_fresh used c u i :
  store_inv used c → u ∉ used → chunk_id_of u i ∉ Chroma.id <$> c.
Proof.
  intros (_ & Hitems & _) Hu (x & Hid & Hx)%list_elem_of_fmap.
  destruct (Hitems x Hx) as (d & j & Hd & Hidx & _).
  rewrite Hidx in Hid. apply chunk_id_of_inj in Hid as [-> _]. done.
Qed.

Lemma store_inv_add used c u text metadata :
  store_inv used c → u ∉ used →
  store_inv (used ++ [u]) (add_document u text metadata c).2.
Proof.
  intros Hinv Hu. pose proof Hinv as (Hwf & Hitems & Hidx).
  rewrite add_document_fresh by (intros; by eapply store_inv_fresh).
  cbn [snd].
  set (md := metadata_or_empty metadata).
  set (chunks := _chunk_text text default_max_chunk_size).
  assert (Hold : ∀ x, x ∈ c → ¬ carries u x).
  { intros x Hx Hcar. destruct (Hitems x Hx) as (d & _ & Hd & _ & Hcd).
    unfold carries in *. rewrite Hcar in Hcd. by injection Hcd as ->. }
  split_and!.
  - unfold Chroma.wf. rewrite fmap_app. apply NoDup_app. split_and!.
    + done.
    + intros s Hs (x & -> & (i & chunk & -> & _)%elem_of_lookup_imap)%list_elem_of_fmap.
      revert Hs. by eapply store_inv_fresh.
    + apply stored_ids_NoDup.
  - intros x [Hx|Hx]%elem_of_app.
    + destruct (Hitems x Hx) as (d & i & Hd & ? & ?). exists d, i.
      split_and!; [|done..]. apply elem_of_app. by left.
    + pose proof (stored_items_carry _ _ _ _ Hx).
      apply elem_of_lookup_imap in Hx as (i & chunk & -> & _). exists u, i.
      split_and!; [|done..]. apply elem_of_app. right. left.
  - intros d. rewrite chunk_indexes_app. destruct (decide (d = u)) as [->|Hne].
    + rewrite (chunk_indexes_none u c) by done.
      by rewrite chunk_indexes_stored, !app_nil_l, length_zero_based.
    + rewrite (chunk_indexes_none d (imap _ _)), app_nil_r; [done|].
      intros x Hx%stored_items_carry Hcar. unfold carries in *. congruence.
Qed.

Lemma store_inv_delete used c d0 :
  store_inv used c → store_inv used (delete_document d0 c).2.
Proof.
  intros (Hwf & Hitems & Hidx). rewrite delete_document_eq. cbn [snd].
  rewrite chroma_delete_carried by done. split_and!.
  - by apply NoDup_fmap_filter.
  - intros x [_ Hx]%list_elem_of_filter. by apply Hitems.
  - intros d. destruct (decide (d = d0)) as [->|Hne].
    + rewrite chunk_indexes_none; [done|]. by intros x [? _]%list_elem_of_filter.
    + assert (chunk_indexes d (filter (λ x, ¬ carries d0 x) c) = chunk_indexes d c)
        as ->; [|done].
      unfold chunk_indexes. rewrite list_filter_filter_l; [done|].
      intros x Hd Hd0. unfold carries in *. congruence.
Qed.

Lemma run_ops_inv ops :
  NoDup (generated_ids ops) → store_inv (generated_ids ops) (run_ops ops []).
Proof.
  induction ops as [|op ops IH] using rev_ind; intros Hnd.
  { split_and!; [constructor| |done]. by intros x ?%elem_of_nil. }
  unfold run_ops, generated_ids in *. rewrite fold_left_app, omap_app in *.
  destruct op as [u text metadata|d0]; simpl in *.
  - apply NoDup_app in Hnd as (Hnd & Hu & _). apply store_inv_add; [by apply IH|].
    intros Hin. apply (Hu u Hin). left.
  - rewrite app_nil_r in *. apply store_inv_delete. by apply IH.
Qed.

(** C5: after any history of [add_document] and [delete_document] calls
    from the empty collection, [uuid4] never giving the same identifier
    twice, the chunk indexes of the items of any document are, in store
    order, 0, 1, ..., n-1: no gap, no duplicate. *)
Theorem chunk_index_contiguous ops d :
  NoDup (generated_ids ops) →
  chunk_indexes d (run_ops ops [])
  = zero_based (length (chunk_indexes d (run_ops ops []))).
Proof. intros Hnd. by destruct (run_ops_inv ops Hnd) as (_ & _ & Hidx). Qed.

Lemma chunk_index_contiguous_witness :
  chunk_indexes "b" (run_ops [OpAdd "a" three_paragraphs None;
                              OpAdd "b" two_fives (Some {["title" := MStr "X"]});
                              OpDelete "a"] [])
  = zero_based 1.
Proof.
  etrans; [apply chunk_index_contiguous|reflexivity].
  apply (bool_decide_unpack _). vm_compute. exact I.
Defined.

(** * Further properties *)

(** ** Trimming and joining *)

Lemma rstrip_idemp s : PyStr.rstrip (PyStr.rstrip s) = PyStr.rstrip s.
Proof.
  induction s as [|c r IH]; [done|]. simpl.
  destruct (PyStr.rstrip r) as [|a r'] eqn:Hr.
  - destruct (PyStr.isspace c) eqn:Hc; [done|]. simpl. by rewrite Hc.
  - simpl in *. by rewrite IH.
Qed.

Lemma lstrip_rstrip_lstrip s :
  PyStr.lstrip (PyStr.rstrip (PyStr.lstrip s)) = PyStr.rstrip (PyStr.lstrip s).
Proof.
  induction s as [|c r IH]; [done|]. simpl.
  destruct (PyStr.isspace c) eqn:Hc; [exact IH|]. simpl.
  destruct (PyStr.rstrip r); rewrite ?Hc; simpl; by rewrite Hc.
Qed.

Lemma strip_trimmed s :
  PyStr.lstrip (PyStr.strip s) = PyStr.strip s
  ∧ PyStr.rstrip (PyStr.strip s) = PyStr.strip s.
Proof. unfold PyStr.strip. split; [apply lstrip_rstrip_lstrip|apply rstrip_idemp]. Qed.

Lemma whitespace_only_app s t :
  Reference.whitespace_only (s +:+ t)
  = Reference.whitespace_only s && Reference.whitespace_only t.
Proof.
  induction s as [|c r IH]; [done|]. rewrite string_app_cons. simpl.
  by rewrite IH, andb_assoc.
Qed.

Lemma strip_nonblank s :
  Reference.whitespace_only s = false → PyStr.strip s ≠ "".
Proof.
  intros Hs Hnil. pose proof (truthy_strip_iff s) as Ht.
  rewrite Hnil, Hs in Ht. done.
Qed.

Lemma paragraphs_of_nonblank text p :
  p ∈ paragraphs_of text → Reference.whitespace_only p = false.
Proof.
  unfold paragraphs_of. rewrite list_elem_of_In, filter_In, truthy_strip_iff.
  intros [_ Hp]. by apply negb_true_iff.
Qed.

Lemma join_cons_cons sep x y l :
  PyStr.join sep (x :: y :: l) = x +:+ sep +:+ PyStr.join sep (y :: l).
Proof. reflexivity. Qed.

Lemma string_app_assoc s t u : (s +:+ t) +:+ u = s +:+ t +:+ u.
Proof.
  induction s as [|c r IH]; [done|]. rewrite !string_app_cons. by rewrite IH.
Qed.

Lemma string_app_nil_r s : s +:+ "" = s.
Proof. induction s as [|c r IH]; [done|]. rewrite string_app_cons. by rewrite IH. Qed.

Lemma join_snoc sep g p :
  g ≠ [] → PyStr.join sep (g ++ [p]) = PyStr.join sep g +:+ sep +:+ p.
Proof.
  induction g as [|x g IH]; [done|]. intros _.
  destruct g as [|y g]; [done|].
  change (PyStr.join sep ((x :: y :: g) ++ [p]))
    with (x +:+ sep +:+ PyStr.join sep ((y :: g) ++ [p])).
  rewrite IH by done. rewrite join_cons_cons. by rewrite !string_app_assoc.
Qed.

Lemma join_nonblank sep g :
  g ≠ [] → (∀ p, p ∈ g → Reference.whitespace_only p = false) →
  Reference.whitespace_only (PyStr.join sep g) = false.
Proof.
  destruct g as [|x g]; [done|]. intros _ Hall.
  destruct g as [|y g]; [apply Hall; left|].
  rewrite join_cons_cons, whitespace_only_app, (Hall x) by left. done.
Qed.

(** ** The groups of the chunker *)

Lemma accumulate_groups max_chunk_size ps :
  ∀ group,
    (∀ p, p ∈ group ++ ps → Reference.whitespace_only p = false) →
    loop_chunks max_chunk_size (PyStr.join " " group) ps
    = chunk_of_group <$> group_paragraphs max_chunk_size group ps.
Proof.
  induction ps as [|p rest IH]; intros group Hall.
  - destruct group as [|x g]; [done|]. cbn [loop_chunks group_paragraphs].
    assert (Reference.whitespace_only (PyStr.join " " (x :: g)) = false) as Hj.
    { apply join_nonblank; [done|]. intros q Hq. apply Hall. by rewrite app_nil_r. }
    destruct (PyStr.join " " (x :: g)) eqn:Hjoin; [done|]. by rewrite <-Hjoin.
  - destruct group as [|x g].
    { simpl. apply (IH [p]). intros q Hq. apply Hall. done. }
    assert (Reference.whitespace_only (PyStr.join " " (x :: g)) = false) as Hj.
    { apply join_nonblank; [done|]. intros q Hq. apply Hall, elem_of_app. by left. }
    cbn [loop_chunks group_paragraphs].
    destruct (PyStr.join " " (x :: g)) as [|a j] eqn:Hjoin; [done|].
    destruct (_ <=? _)%Z.
    + rewrite <-Hjoin, <-join_snoc by done. apply IH.
      intros q Hq. apply Hall. by rewrite <-app_assoc in Hq.
    + rewrite fmap_cons. unfold chunk_of_group at 1. rewrite Hjoin. f_equal.
      apply (IH [p]). intros q Hq. apply Hall, elem_of_app. by right.
Qed.

Lemma chunk_text_groups text max_chunk_size :
  _chunk_text text max_chunk_size
  = chunk_of_group <$> group_paragraphs max_chunk_size [] (paragraphs_of text).
Proof.
  rewrite chunk_text_accumulate. apply (accumulate_groups _ _ []).
  intros p Hp. by apply paragraphs_of_nonblank in Hp.
Qed.

Lemma group_paragraphs_concat max_chunk_size ps :
  ∀ group, concat (group_paragraphs max_chunk_size group ps) = group ++ ps.
Proof.
  induction ps as [|p rest IH]; intros group.
  - destruct group; simpl; by rewrite ?app_nil_r.
  - destruct group as [|x g]; [apply (IH [p])|]. cbn [group_paragraphs].
    destruct (_ <=? _)%Z.
    + rewrite IH. by rewrite <-app_assoc.
    + simpl. by rewrite (IH [p]).
Qed.

Lemma group_paragraphs_nonempty max_chunk_size ps :
  ∀ group g, g ∈ group_paragraphs max_chunk_size group ps → g ≠ [].
Proof.
  induction ps as [|p rest IH]; intros group g Hg.
  - destruct group; simpl in Hg; [by apply elem_of_nil in Hg|].
    by apply list_elem_of_singleton in Hg as ->.
  - destruct group as [|x gr]; [by apply (IH [p])|]. cbn [group_paragraphs] in Hg.
    destruct (_ <=? _)%Z; [by apply (IH _ _ Hg)|].
    apply elem_of_cons in Hg as [->|Hg]; [done|]. by apply (IH [p]).
Qed.

Lemma len_nonneg s : (0 ≤ PyStr.len s)%Z.
Proof. unfold PyStr.len. lia. Qed.

Lemma len_app s t : PyStr.len (s +:+ t) = (PyStr.len s + PyStr.len t)%Z.
Proof. unfold PyStr.len. rewrite length_string_app. lia. Qed.

Lemma joined_size_nonneg l : (0 ≤ joined_size l)%Z.
Proof. induction l as [|x l IH]; simpl; [done|]. pose proof (len_nonneg x). lia. Qed.

Lemma joined_size_app l1 l2 : joined_size (l1 ++ l2) = (joined_size l1 + joined_size l2)%Z.
Proof. induction l1 as [|x l IH]; simpl; [done|]. rewrite IH. lia. Qed.

Lemma len_join sep l :
  String.length sep = 1 → l ≠ [] →
  (PyStr.len (PyStr.join sep l) + 1 = joined_size l)%Z.
Proof.
  intros Hsep. induction l as [|x l IH]; [done|]. intros _.
  destruct l as [|y l]; [simpl; lia|].
  rewrite join_cons_cons, !len_app. cbn [joined_size] in *.
  specialize (IH ltac:(done)). unfold PyStr.len at 2. rewrite Hsep. lia.
Qed.

Lemma len_elem_join q g :
  q ∈ g → (PyStr.len q ≤ PyStr.len (PyStr.join " " g))%Z.
Proof.
  intros Hq. assert (g ≠ []) as Hne by (intros ->; by apply elem_of_nil in Hq).
  pose proof (len_join " " g eq_refl Hne) as Hlen.
  assert (PyStr.len q + 1 ≤ joined_size g)%Z; [|lia]. clear Hlen Hne.
  induction g as [|x g IH]; [by apply elem_of_nil in Hq|]. simpl.
  apply elem_of_cons in Hq as [->|Hq].
  - pose proof (joined_size_nonneg g). lia.
  - specialize (IH Hq). pose proof (len_nonneg x). lia.
Qed.

Lemma snoc_split_cases {A} (group g1 g2 : list A) p0 p :
  group ++ [p0] = g1 ++ p :: g2 →
  (g2 = [] ∧ p = p0 ∧ g1 = group) ∨ (∃ g2', g2 = g2' ++ [p0] ∧ group = g1 ++ p :: g2').
Proof.
  destruct g2 as [|z g2' _] using rev_ind; intros Heq.
  - left. by apply app_inj_tail in Heq as [-> ->].
  - right. exists g2'. rewrite app_comm_cons, app_assoc in Heq.
    by apply app_inj_tail in Heq as [-> ->].
Qed.

(** A paragraph joins a group only when the budget test lets it. *)
Lemma group_paragraphs_fit max_chunk_size ps :
  ∀ group,
    (∀ g1 p g2, group = g1 ++ p :: g2 → g1 ≠ [] →
       (PyStr.len (PyStr.join " " g1) + PyStr.len p ≤ max_chunk_size)%Z) →
    ∀ g, g ∈ group_paragraphs max_chunk_size group ps →
    ∀ g1 p g2, g = g1 ++ p :: g2 → g1 ≠ [] →
       (PyStr.len (PyStr.join " " g1) + PyStr.len p ≤ max_chunk_size)%Z.
Proof.
  assert (Hone : ∀ (p0 : string) g1 p g2, [p0] = g1 ++ p :: g2 → g1 ≠ [] → False).
  { intros p0 [|a [|b g1]] p g2 Heq Hne; [done|..]; by simplify_eq/=. }
  induction ps as [|p0 rest IH]; intros group Hgroup g Hg.
  - destruct group; simpl in Hg; [by apply elem_of_nil in Hg|].
    by apply list_elem_of_singleton in Hg as ->.
  - destruct group as [|x gr].
    { apply (IH [p0]); [|done]. intros ???? Hne. by destruct (Hone _ _ _ _ H Hne). }
    cbn [group_paragraphs] in Hg. destruct (_ <=? _)%Z eqn:Hfit.
    + apply (IH ((x :: gr) ++ [p0])); [|done].
      intros g1 p g2 [(-> & -> & ->)|(g2' & -> & Heq)]%snoc_split_cases Hne.
      * by apply Z.leb_le.
      * by apply (Hgroup g1 p g2').
    + apply elem_of_cons in Hg as [->|Hg]; [done|].
      apply (IH [p0]); [|done]. intros ???? Hne. by destruct (Hone _ _ _ _ H Hne).
Qed.

Lemma group_paragraphs_head max_chunk_size ps :
  ∀ group, group ≠ [] →
    ∃ more others, group_paragraphs max_chunk_size group ps = (group ++ more) :: others.
Proof.
  induction ps as [|p rest IH]; intros group Hne.
  - destruct group; [done|]. exists [], []. simpl. by rewrite app_nil_r.
  - destruct group as [|x gr]; [done|]. cbn [group_paragraphs]. destruct (_ <=? _)%Z.
    + destruct (IH ((x :: gr) ++ [p])) as (more & others & ->); [by destruct gr|].
      exists (p :: more), others. by rewrite <-app_assoc.
    + exists [], (group_paragraphs max_chunk_size [p] rest). by rewrite app_nil_r.
Qed.

(** A group is closed only when the next paragraph fails the budget test. *)
Lemma group_paragraphs_maximal max_chunk_size ps :
  ∀ group before g q g' after,
    group_paragraphs max_chunk_size group ps = before ++ g :: (q :: g') :: after →
    (PyStr.len (PyStr.join " " g) + PyStr.len q > max_chunk_size)%Z.
Proof.
  induction ps as [|p rest IH]; intros group before g q g' after Heq.
  - destruct group; simpl in Heq; destruct before as [|? [|??]]; simplify_eq/=.
  - destruct group as [|x gr]; [by apply (IH [p] before g q g' after)|].
    cbn [group_paragraphs] in Heq. destruct (_ <=? _)%Z eqn:Hfit.
    { by apply (IH _ before g q g' after Heq). }
    destruct before as [|b before]; simplify_eq/=.
    + destruct (group_paragraphs_head max_chunk_size rest [p]) as (more & others & Hhead);
        [done|]. rewrite Hhead in H0. simplify_eq/=. apply Z.leb_gt in Hfit. lia.
    + by apply (IH [p] before g q g' after).
Qed.

Lemma group_paragraphs_fits_all max_chunk_size ps :
  ∀ group,
    group ++ ps ≠ [] →
    (joined_size (group ++ ps) ≤ max_chunk_size + 1)%Z →
    group_paragraphs max_chunk_size group ps = [group ++ ps].
Proof.
  induction ps as [|p rest IH]; intros group Hne Hsize.
  - rewrite app_nil_r in *. by destruct group.
  - destruct group as [|x gr]; [by apply (IH [p])|]. cbn [group_paragraphs].
    pose proof (len_join " " (x :: gr) eq_refl ltac:(done)) as Hlen.
    rewrite joined_size_app in Hsize. cbn [joined_size] in Hsize.
    pose proof (joined_size_nonneg rest). pose proof (len_nonneg p).
    rewrite (proj2 (Z.leb_le _ _)) by (cbn [joined_size] in Hlen; lia).
    rewrite IH; [by rewrite <-app_assoc|by destruct gr|].
    rewrite <-app_assoc, joined_size_app. cbn [joined_size app]. lia.
Qed.

Lemma joined_size_split sep s :
  joined_size (PyStr.split sep s) = (PyStr.len s + 1)%Z.
Proof.
  induction s as [|c r IH]; [done|]. simpl.
  assert (PyStr.len (String c r) = PyStr.len r + 1)%Z as Hc by (unfold PyStr.len; simpl; lia).
  destruct (Ascii.eqb c sep).
  - cbn [joined_size]. rewrite IH, Hc. unfold PyStr.len at 1. simpl. lia.
  - destruct (PyStr.split sep r) as [|h t]; cbn [joined_size] in *.
    + pose proof (len_nonneg r). lia.
    + assert (PyStr.len (String c h) = PyStr.len h + 1)%Z by (unfold PyStr.len; simpl; lia).
      lia.
Qed.

Lemma joined_size_filter (f : string → bool) l :
  (joined_size (List.filter f l) ≤ joined_size l)%Z.
Proof.
  induction l as [|x l IH]; simpl; [done|].
  pose proof (len_nonneg x). destruct (f x); simpl; lia.
Qed.

Lemma joined_size_paragraphs text :
  (joined_size (paragraphs_of text) ≤ PyStr.len text + 1)%Z.
Proof.
  unfold paragraphs_of. etrans; [apply joined_size_filter|].
  by rewrite joined_size_split.
Qed.

Lemma groups_of_text text max_chunk_size :
  let groups := group_paragraphs max_chunk_size [] (paragraphs_of text) in
  concat groups = paragraphs_of text
  ∧ Forall (λ g, g ≠ []) groups
  ∧ _chunk_text text max_chunk_size = (λ g, PyStr.strip (PyStr.join " " g)) <$> groups.
Proof.
  split_and!.
  - apply (group_paragraphs_concat _ _ []).
  - apply Forall_forall. intros g Hg. by eapply group_paragraphs_nonempty.
  - apply chunk_text_groups.
Qed.

Lemma elem_of_concat {A} (x : A) (groups : list (list A)) :
  x ∈ concat groups ↔ ∃ g, g ∈ groups ∧ x ∈ g.
Proof.
  rewrite list_elem_of_In, in_concat. setoid_rewrite list_elem_of_In. done.
Qed.

Lemma length_concat_nonempty {A} (groups : list (list A)) :
  Forall (λ g, g ≠ []) groups → length groups ≤ length (concat groups).
Proof.
  induction 1 as [|g groups Hg _ IH]; [done|]. simpl. rewrite length_app.
  destruct g; [done|]. simpl. lia.
Qed.

(** X1: every chunk is a non-empty string without leading or trailing
    whitespace. *)
Theorem chunks_nonempty_and_trimmed text max_chunk_size c :
  c ∈ _chunk_text text max_chunk_size →
  c ≠ "" ∧ PyStr.lstrip c = c ∧ PyStr.rstrip c = c.
Proof.
  destruct (groups_of_text text max_chunk_size) as (Hcat & Hne & ->).
  intros (g & -> & Hg)%list_elem_of_fmap. split; [|apply strip_trimmed].
  apply strip_nonblank, join_nonblank.
  - by apply (proj1 (Forall_forall _ _) Hne).
  - intros p Hp. apply (paragraphs_of_nonblank text). rewrite <-Hcat.
    apply elem_of_concat. eauto.
Qed.

Lemma chunks_nonempty_and_trimmed_witness :
  "Para three." ≠ "" ∧ PyStr.lstrip "Para three." = "Para three."
  ∧ PyStr.rstrip "Para three." = "Para three.".
Proof.
  apply (chunks_nonempty_and_trimmed three_paragraphs 20). right. left.
Defined.

(** X2: the chunks are the non-blank lines of the text, in order, cut into
    consecutive non-empty groups, each group joined by single spaces and
    trimmed: no line is lost, repeated or moved; so there are at most as
    many chunks as non-blank lines. *)
Theorem chunks_partition_paragraphs text max_chunk_size :
  ∃ groups,
    concat groups = paragraphs_of text
    ∧ Forall (λ g, g ≠ []) groups
    ∧ _chunk_text text max_chunk_size = (λ g, PyStr.strip (PyStr.join " " g)) <$> groups
    ∧ length (_chunk_text text max_chunk_size) ≤ length (paragraphs_of text).
Proof.
  destruct (groups_of_text text max_chunk_size) as (Hcat & Hne & Heq).
  eexists. split_and!; [exact Hcat|exact Hne|exact Heq|].
  rewrite Heq, length_fmap. apply length_concat_nonempty in Hne. by rewrite Hcat in Hne.
Qed.

(** X3: the chunker returns no chunk exactly when every line of the text is
    blank. *)
Theorem no_chunk_iff_blank text max_chunk_size :
  _chunk_text text max_chunk_size = []
  ↔ Forall (λ line, PyStr.strip line = "") (PyStr.split PyStr.newline text).
Proof.
  assert (paragraphs_of text = []
          ↔ Forall (λ line, PyStr.strip line = "") (PyStr.split PyStr.newline text))
    as <-.
  { unfold paragraphs_of. induction (PyStr.split PyStr.newline text) as [|l ls IH];
      [by split|]. simpl. rewrite Forall_cons, <-IH.
    destruct (PyStr.strip l); simpl; intuition congruence. }
  destruct (groups_of_text text max_chunk_size) as (Hcat & Hne & ->).
  revert Hcat Hne.
  generalize (group_paragraphs max_chunk_size [] (paragraphs_of text)) as groups.
  intros groups <- Hne. split.
  - by intros ->%fmap_nil_inv.
  - destruct groups as [|g gs]; [done|].
    apply Forall_cons in Hne as [Hg _]. simpl. by destruct g.
Qed.

Lemma no_chunk_iff_blank_witness : _chunk_text (nl +:+ " " +:+ nl) 512 = [].
Proof. apply no_chunk_iff_blank. repeat constructor. Defined.

(** X4: a text no longer than the budget is never split: its non-blank
    lines, joined by single spaces and trimmed, are the only chunk. *)
Theorem short_text_single_chunk text max_chunk_size :
  (PyStr.len text ≤ max_chunk_size)%Z →
  _chunk_text text max_chunk_size
  = match paragraphs_of text with
    | [] => []
    | ps => [PyStr.strip (PyStr.join " " ps)]
    end.
Proof.
  intros Hlen. rewrite chunk_text_groups. pose proof (joined_size_paragraphs text).
  destruct (paragraphs_of text) as [|p ps] eqn:Hps; [done|].
  rewrite (group_paragraphs_fits_all _ _ []); [done|done|]. simpl app. lia.
Qed.

Lemma short_text_single_chunk_witness :
  _chunk_text three_paragraphs 512 = ["Para one. Para two. Para three."].
Proof. etrans; [by apply short_text_single_chunk|reflexivity]. Defined.

(** X5: a paragraph longer than the budget is a chunk of its own: no other
    paragraph is joined to it. *)
Theorem oversize_paragraph_alone text max_chunk_size :
  ∃ groups,
    concat groups = paragraphs_of text
    ∧ _chunk_text text max_chunk_size = (λ g, PyStr.strip (PyStr.join " " g)) <$> groups
    ∧ ∀ g p, g ∈ groups → p ∈ g → (PyStr.len p > max_chunk_size)%Z → g = [p].
Proof.
  destruct (groups_of_text text max_chunk_size) as (Hcat & Hne & Heq).
  eexists. split_and!; [exact Hcat|exact Heq|].
  intros g p Hg Hp Hbig.
  pose proof (group_paragraphs_fit max_chunk_size (paragraphs_of text) []) as Hfit.
  specialize (Hfit ltac:(by intros [|??] ???) g Hg).
  apply list_elem_of_split in Hp as (g1 & g2 & ->).
  destruct g1 as [|a g1].
  - destruct g2 as [|q g2]; [done|].
    specialize (Hfit [p] q g2 eq_refl ltac:(done)). simpl in Hfit.
    pose proof (len_nonneg q). lia.
  - specialize (Hfit (a :: g1) p g2 eq_refl ltac:(done)).
    pose proof (len_nonneg (PyStr.join " " (a :: g1))). lia.
Qed.

(** X6: the grouping is greedy. A paragraph is joined to the running chunk
    only when the length of the running chunk plus its own length is within
    the budget, and a chunk is closed only when the paragraph that follows
    fails that test. *)
Theorem chunks_greedy text max_chunk_size :
  ∃ groups,
    concat groups = paragraphs_of text
    ∧ _chunk_text text max_chunk_size = (λ g, PyStr.strip (PyStr.join " " g)) <$> groups
    ∧ (∀ g g1 p g2, g ∈ groups → g = g1 ++ p :: g2 → g1 ≠ [] →
         (PyStr.len (PyStr.join " " g1) + PyStr.len p ≤ max_chunk_size)%Z)
    ∧ (∀ before g q g' after, groups = before ++ g :: (q :: g') :: after →
         (PyStr.len (PyStr.join " " g) + PyStr.len q > max_chunk_size)%Z).
Proof.
  destruct (groups_of_text text max_chunk_size) as (Hcat & Hne & Heq).
  eexists. split_and!; [exact Hcat|exact Heq|..].
  - intros g g1 p g2 Hg.
    apply (group_paragraphs_fit max_chunk_size (paragraphs_of text) []); [|done].
    by intros [|??] ???.
  - intros before g q g' after Hgroups. by eapply group_paragraphs_maximal.
Qed.

(** X7: a chunk is one trimmed paragraph, or it has at most
    [max_chunk_size + 1] characters. *)
Theorem chunk_at_most_one_over_budget text max_chunk_size c :
  c ∈ _chunk_text text max_chunk_size →
  (∃ p, p ∈ paragraphs_of text ∧ c = PyStr.strip p)
  ∨ (PyStr.len c ≤ max_chunk_size + 1)%Z.
Proof. apply chunk_text_slack. Qed.

Lemma chunk_at_most_one_over_budget_witness :
  (∃ p, p ∈ paragraphs_of two_fives ∧ "aaaaa bbbbb" = PyStr.strip p)
  ∨ (PyStr.len "aaaaa bbbbb" ≤ 10 + 1)%Z.
Proof. apply (chunk_at_most_one_over_budget two_fives 10). left. Defined.

(** ** The listing in closed form *)

Lemma first_occurrences_elem l k : k ∈ first_occurrences l ↔ k ∈ l.
Proof.
  induction l as [|v l IH]; [done|]. simpl.
  rewrite !elem_of_cons, list_elem_of_filter, IH.
  destruct (decide (k = v)); tauto.
Qed.

Lemma first_occurrences_NoDup l : NoDup (first_occurrences l).
Proof.
  induction l as [|v l IH]; simpl; [constructor|]. apply NoDup_cons. split.
  - by intros [? _]%list_elem_of_filter.
  - by apply NoDup_filter.
Qed.

Lemma first_occurrences_snoc l b :
  first_occurrences (l ++ [b])
  = if decide (b ∈ l) then first_occurrences l else first_occurrences l ++ [b].
Proof.
  induction l as [|v l IH]; [done|]. simpl. rewrite IH.
  destruct (decide (b ∈ l)) as [Hin|Hout].
  - rewrite decide_True; [done|by right].
  - rewrite filter_app. destruct (decide (b = v)) as [->|Hne].
    + rewrite decide_True by left.
      by rewrite filter_cons_False, filter_nil, app_nil_r by (intros ?; done).
    + rewrite decide_False by (intros [?|?]%elem_of_cons; done).
      by rewrite filter_cons_True by done.
Qed.

Lemma first_occurrences_filter (P : MetaValue → Prop) `{!∀ v, Decision (P v)} l :
  first_occurrences (filter P l) = filter P (first_occurrences l).
Proof.
  induction l as [|v l IH]; [done|]. rewrite filter_cons. simpl. case_decide.
  - simpl. rewrite filter_cons_True by done. f_equal. rewrite IH.
    rewrite !list_filter_filter. apply list_filter_iff. intros w. tauto.
  - rewrite filter_cons_False by done. rewrite IH, list_filter_filter.
    apply list_filter_iff. intros w. split; [|tauto].
    intros Hw. split; [done|]. by intros ->.
Qed.

Lemma group_items_snoc items :
  ∀ dm x,
    group_items dm (items ++ [x])
    = match group_items dm items with
      | Returned dm' => group_item dm' x
      | Raised e => Raised e
      end.
Proof.
  induction items as [|y rest IH]; intros dm x; simpl.
  - by destruct (group_item dm x).
  - destruct (group_item dm y); [apply IH|done].
Qed.

Lemma doc_id_values_snoc c x b :
  Chroma.metadata x !! "doc_id" = Some b →
  doc_id_values (c ++ [x]) = doc_id_values c ++ [b].
Proof. intros Hb. unfold doc_id_values. rewrite omap_app. simpl. by rewrite Hb. Qed.

Lemma doc_id_values_elem c b :
  b ∈ doc_id_values c ↔ ∃ x, x ∈ c ∧ Chroma.metadata x !! "doc_id" = Some b.
Proof. unfold doc_id_values. by rewrite list_elem_of_omap. Qed.

Lemma items_of_snoc k c x b :
  Chroma.metadata x !! "doc_id" = Some b →
  items_of k (c ++ [x]) = items_of k c ++ (if decide (k = b) then [x] else []).
Proof.
  intros Hb. unfold items_of. rewrite filter_app. f_equal.
  destruct (decide (k = b)) as [->|Hne].
  - by rewrite filter_cons_True, filter_nil by done.
  - rewrite filter_cons_False, filter_nil; [done|]. rewrite Hb. congruence.
Qed.

Lemma items_of_nonempty k c : k ∈ doc_id_values c → items_of k c ≠ [].
Proof.
  intros (x & Hx & Hk)%doc_id_values_elem Hnil.
  assert (x ∈ items_of k c) as Hin by (by apply list_elem_of_filter).
  rewrite Hnil in Hin. by apply elem_of_nil in Hin.
Qed.

Lemma items_of_absent k c : k ∉ doc_id_values c → items_of k c = [].
Proof.
  intros Hk. unfold items_of. induction c as [|x c IH]; [done|].
  rewrite filter_cons_False.
  - apply IH. intros Hin. apply Hk. apply doc_id_values_elem in Hin as (y & ? & ?).
    apply doc_id_values_elem. exists y. split; [by right|done].
  - intros Hx. apply Hk, doc_id_values_elem. exists x. split; [left|done].
Qed.

(** Counting one more item of a document that has its entry: only that
    entry changes. *)
Lemma doc_map_increment_table (f g : MetaValue → Summary.t) ks b :
  NoDup ks → b ∈ ks →
  (∀ k, k ≠ b → g k = f k) →
  g b = Summary.mk (Summary.id (f b)) (Summary.metadata (f b))
                   (Summary.chunk_count (f b) + 1) (Summary.sample_text (f b)) →
  doc_map_increment ((λ k, (k, f k)) <$> ks) b = Some ((λ k, (k, g k)) <$> ks).
Proof.
  intros Hnd Hb Hother Hmine. induction ks as [|k ks IH]; [by apply elem_of_nil in Hb|].
  apply NoDup_cons in Hnd as [Hk Hnd]. rewrite !fmap_cons. simpl.
  destruct (decide (k = b)) as [->|Hne].
  - rewrite Hmine. do 2 f_equal. apply list_fmap_ext. intros i k Hlook.
    rewrite Hother; [done|]. intros ->. by apply list_elem_of_lookup_2 in Hlook.
  - apply elem_of_cons in Hb as [?|Hb]; [congruence|].
    rewrite IH by done. simpl. by rewrite Hother.
Qed.

Lemma doc_map_increment_last dm k s :
  k ∉ dm.*1 →
  doc_map_increment (dm ++ [(k, s)]) k
  = Some (dm ++ [(k, Summary.mk (Summary.id s) (Summary.metadata s)
                                (Summary.chunk_count s + 1) (Summary.sample_text s))]).
Proof.
  intros Hk. induction dm as [|[k' w] dm IH]; simpl.
  - by rewrite decide_True.
  - rewrite decide_False by (intros ->; apply Hk; left).
    rewrite IH; [done|]. intros ?. apply Hk. by right.
Qed.

(** The table after the loop, when every item has a [doc_id]: one entry
    per value, in order of first appearance, holding the summary of its
    items. *)
Lemma group_items_closed c :
  (∀ x, x ∈ c → is_Some (Chroma.metadata x !! "doc_id")) →
  group_items [] c
  = Returned ((λ k, (k, summary_of k c)) <$> first_occurrences (doc_id_values c)).
Proof.
  induction c as [|x c IH] using rev_ind; intros Hall; [done|].
  rewrite group_items_snoc, IH by (intros y Hy; apply Hall, elem_of_app; by left).
  destruct (Hall x) as [b Hb]; [apply elem_of_app; right; left|].
  rewrite (doc_id_values_snoc c x b Hb), first_occurrences_snoc.
  unfold group_item. rewrite Hb. unfold doc_map_contains.
  rewrite <-list_fmap_compose.
  assert (fst ∘ (λ k, (k, summary_of k c)) = id) as -> by done. rewrite list_fmap_id.
  destruct (decide (b ∈ doc_id_values c)) as [Hin|Hout].
  - rewrite bool_decide_eq_true_2 by (by apply first_occurrences_elem). cbn [negb].
    erewrite doc_map_increment_table;
      [done|apply first_occurrences_NoDup|by apply first_occurrences_elem|..].
    + intros k Hne. unfold summary_of. rewrite (items_of_snoc k c x b Hb).
      by rewrite decide_False, app_nil_r by done.
    + unfold summary_of. rewrite (items_of_snoc b c x b Hb), decide_True by done.
      pose proof (items_of_nonempty b c Hin) as Hne.
      destruct (items_of b c) as [|y ys]; [done|].
      cbn [head from_option app Summary.id Summary.metadata Summary.chunk_count
           Summary.sample_text].
      f_equal. cbn [length]. rewrite length_app. cbn [length]. lia.
  - rewrite bool_decide_eq_false_2 by (by rewrite first_occurrences_elem). cbn [negb].
    rewrite doc_map_set_fresh.
    2:{ unfold doc_map_contains. rewrite <-list_fmap_compose.
        assert (fst ∘ (λ k, (k, summary_of k c)) = id) as -> by done.
        rewrite list_fmap_id. apply bool_decide_eq_false_2.
        by rewrite first_occurrences_elem. }
    rewrite doc_map_increment_last.
    2:{ rewrite <-list_fmap_compose.
        assert (fst ∘ (λ k, (k, summary_of k c)) = id) as -> by done.
        rewrite list_fmap_id. by rewrite first_occurrences_elem. }
    rewrite fmap_app. cbn [fmap list_fmap]. do 2 f_equal.
    + apply list_fmap_ext. intros i k Hk%list_elem_of_lookup_2.
      rewrite first_occurrences_elem in Hk. f_equal. unfold summary_of.
      rewrite (items_of_snoc k c x b Hb), decide_False, app_nil_r; [done|].
      intros ->. by apply Hout.
    + unfold summary_of. rewrite (items_of_snoc b c x b Hb), decide_True by done.
      by rewrite (items_of_absent b c Hout).
Qed.

Lemma get_all_documents_closed c :
  (∀ x, x ∈ c → is_Some (Chroma.metadata x !! "doc_id")) →
  get_all_documents c = (Returned (listing_of c), c).
Proof.
  intros Hall. rewrite get_all_documents_eq, group_items_closed by done.
  unfold listing_of. by rewrite <-list_fmap_compose.
Qed.

(** The listing returns only if every item has a [doc_id]. *)
Lemma get_all_documents_returned c docs c' :
  get_all_documents c = (Returned docs, c') →
  c' = c ∧ docs = listing_of c.
Proof.
  intros Hret.
  assert (∀ x, x ∈ c → is_Some (Chroma.metadata x !! "doc_id")) as Hall.
  { intros x Hx. destruct (Chroma.metadata x !! "doc_id") as [b|] eqn:Hb; [by eexists|].
    rewrite get_all_documents_eq, (group_items_missing c [] x Hx Hb) in Hret. done. }
  rewrite get_all_documents_closed in Hret by done. by injection Hret as <- <-.
Qed.

Lemma strip_reserved_lookup md :
  strip_reserved md !! "doc_id" = None ∧ strip_reserved md !! "chunk_index" = None.
Proof.
  unfold strip_reserved. split; apply map_lookup_filter_None_2; right;
    intros v _ Hp; apply Hp; simpl.
  - left.
  - right. left.
Qed.

Lemma length_prefix n s : String.length (PyStr.prefix n s) ≤ n.
Proof.
  revert s. induction n as [|n IH]; intros [|c r]; simpl; try lia.
  specialize (IH r). lia.
Qed.

(** X8: when every item has a [doc_id], the listing returns, leaves the
    collection alone, and has one summary per distinct [doc_id] value, in
    the order in which the values first appear in the collection; each
    summary takes its metadata (less the reserved keys) and its preview from
    the first item of its document and counts the items of its document. *)
Theorem listing_groups_by_doc_id c :
  (∀ x, x ∈ c → is_Some (Chroma.metadata x !! "doc_id")) →
  get_all_documents c
  = (Returned ((λ k, summary_of k c) <$> first_occurrences (doc_id_values c)), c).
Proof. apply get_all_documents_closed. Qed.

Lemma listing_groups_by_doc_id_witness :
  get_all_documents
    [stored_item "a" ∅ 0 "one"; stored_item "b" ∅ 0 "two"; stored_item "a" ∅ 1 "three"]
  = (Returned [Summary.mk (MStr "a") ∅ 2 "one..."; Summary.mk (MStr "b") ∅ 1 "two..."],
     [stored_item "a" ∅ 0 "one"; stored_item "b" ∅ 0 "two"; stored_item "a" ∅ 1 "three"]).
Proof.
  etrans; [apply listing_groups_by_doc_id|reflexivity].
  intros x Hx. repeat (apply elem_of_cons in Hx as [->|Hx]; [by eexists|]).
  by apply elem_of_nil in Hx.
Defined.

(** X9: whatever the collection, a summary that the listing returns has
    neither [doc_id] nor [chunk_index] in its metadata, counts at least one
    chunk, and has a preview of at most 103 characters; and the listing
    leaves the collection as it was. *)
Theorem listing_summaries_clean c docs c' s :
  get_all_documents c = (Returned docs, c') → s ∈ docs →
  c' = c
  ∧ Summary.metadata s !! "doc_id" = None
  ∧ Summary.metadata s !! "chunk_index" = None
  ∧ (1 ≤ Summary.chunk_count s)%Z
  ∧ (PyStr.len (Summary.sample_text s) ≤ 103)%Z.
Proof.
  intros [-> ->]%get_all_documents_returned (k & -> & Hk)%list_elem_of_fmap.
  rewrite first_occurrences_elem in Hk. apply items_of_nonempty in Hk.
  unfold summary_of. cbn [Summary.metadata Summary.chunk_count Summary.sample_text].
  split_and!; [done|apply strip_reserved_lookup..| |].
  - destruct (items_of k c); [done|]. cbn [length]. lia.
  - rewrite len_app. unfold PyStr.len.
    pose proof (length_prefix 100 (from_option Chroma.document "" (head (items_of k c)))).
    cbn [String.length]. lia.
Qed.

Lemma listing_summaries_clean_witness :
  [owned_item] = [owned_item]
  ∧ Summary.metadata (Summary.mk (MStr "a") ∅ 1 "hello...") !! "doc_id" = None
  ∧ Summary.metadata (Summary.mk (MStr "a") ∅ 1 "hello...") !! "chunk_index" = None
  ∧ (1 ≤ Summary.chunk_count (Summary.mk (MStr "a") ∅ 1 "hello..."))%Z
  ∧ (PyStr.len (Summary.sample_text (Summary.mk (MStr "a") ∅ 1 "hello...")) ≤ 103)%Z.
Proof.
  apply (listing_summaries_clean [owned_item]
           [Summary.mk (MStr "a") ∅ 1 "hello..."] [owned_item]); [reflexivity|left].
Defined.

(** ** Counting *)

Lemma sum_pointwise (f g : MetaValue → Z) ks :
  foldr Z.add 0%Z ((λ k, f k + g k)%Z <$> ks)
  = (foldr Z.add 0%Z (f <$> ks) + foldr Z.add 0%Z (g <$> ks))%Z.
Proof.
  induction ks as [|k ks IH]; [done|]. rewrite !fmap_cons. cbn [foldr]. rewrite IH. lia.
Qed.

Lemma sum_indicator (b : MetaValue) (ks : list MetaValue) :
  NoDup ks →
  foldr Z.add 0%Z ((λ k, if decide (k = b) then 1 else 0)%Z <$> ks)
  = (if decide (b ∈ ks) then 1 else 0)%Z.
Proof.
  induction 1 as [|k ks Hk _ IH]; [done|]. rewrite fmap_cons. cbn [foldr]. rewrite IH.
  destruct (decide (k = b)) as [->|Hne].
  - rewrite (decide_False (P := b ∈ ks)) by done. rewrite decide_True by left. done.
  - destruct (decide (b ∈ ks)).
    + rewrite decide_True by (by right). done.
    + rewrite decide_False; [done|]. intros [?|?]%elem_of_cons; congruence.
Qed.

Lemma items_of_cons k x c :
  length (items_of k (x :: c))
  = (if decide (Chroma.metadata x !! "doc_id" = Some k) then 1 else 0) + length (items_of k c).
Proof. unfold items_of. rewrite filter_cons. by case_decide. Qed.

(** Every item is counted once, under its own [doc_id] value. *)
Lemma items_of_partition ks c :
  NoDup ks →
  (∀ x, x ∈ c → ∃ b, Chroma.metadata x !! "doc_id" = Some b ∧ b ∈ ks) →
  foldr Z.add 0%Z ((λ k, Z.of_nat (length (items_of k c))) <$> ks) = Z.of_nat (length c).
Proof.
  intros Hnd. induction c as [|x c IH]; intros Hall.
  - clear. induction ks as [|k ks IHk]; [done|]. rewrite fmap_cons. cbn [foldr].
    by rewrite IHk.
  - destruct (Hall x) as (b & Hb & Hin); [left|].
    rewrite (list_fmap_ext _ (λ k, (if decide (k = b) then 1 else 0)
                                   + Z.of_nat (length (items_of k c)))%Z ks).
    + rewrite (sum_pointwise (λ k, if decide (k = b) then 1 else 0)%Z
                               (λ k, Z.of_nat (length (items_of k c)))).
      rewrite sum_indicator, decide_True by done. rewrite IH.
      * cbn [length]. lia.
      * intros y Hy. apply Hall. by right.
    + intros i k _. rewrite items_of_cons, Hb.
      destruct (decide (k = b)) as [->|Hne].
      * rewrite decide_True by done. lia.
      * rewrite decide_False by congruence. lia.
Qed.

(** X10: the summaries of a listing have distinct ids, and their chunk
    counts add up to the number of items in the collection. *)
Theorem listing_counts_add_up c docs c' :
  get_all_documents c = (Returned docs, c') →
  NoDup (Summary.id <$> docs) ∧ total_chunk_count docs = Z.of_nat (length c).
Proof.
  intros Hret. pose proof Hret as [-> ->]%get_all_documents_returned.
  unfold listing_of, total_chunk_count. rewrite <-!list_fmap_compose. split.
  - assert (Summary.id ∘ (λ k, summary_of k c) = id) as -> by done.
    rewrite list_fmap_id. apply first_occurrences_NoDup.
  - apply (items_of_partition _ c (first_occurrences_NoDup _)).
    intros x Hx. destruct (Chroma.metadata x !! "doc_id") as [b|] eqn:Hb.
    + exists b. split; [done|]. rewrite first_occurrences_elem, doc_id_values_elem. eauto.
    + rewrite get_all_documents_eq, (group_items_missing c [] x Hx Hb) in Hret. done.
Qed.

Lemma listing_counts_add_up_witness :
  NoDup (Summary.id <$> [Summary.mk (MStr "a") ∅ 1 "hello..."])
  ∧ total_chunk_count [Summary.mk (MStr "a") ∅ 1 "hello..."] = Z.of_nat (length [owned_item]).
Proof. by apply (listing_counts_add_up [owned_item] _ [owned_item]). Defined.

(** ** Adding and deleting, seen through the listing *)

Lemma group_items_app l1 :
  ∀ dm l2,
    group_items dm (l1 ++ l2)
    = match group_items dm l1 with
      | Returned dm' => group_items dm' l2
      | Raised e => Raised e
      end.
Proof.
  induction l1 as [|x l1 IH]; intros dm l2; simpl; [done|].
  destruct (group_item dm x); [apply IH|done].
Qed.

Lemma group_items_counted d items :
  ∀ dm m n t,
    MStr d ∉ dm.*1 →
    (∀ x, x ∈ items → carries d x) →
    group_items (dm ++ [(MStr d, Summary.mk (MStr d) m n t)]) items
    = Returned (dm ++ [(MStr d, Summary.mk (MStr d) m (n + Z.of_nat (length items)) t)]).
Proof.
  induction items as [|x rest IH]; intros dm m n t Hd Hall.
  { simpl. by rewrite Z.add_0_r. }
  cbn [group_items]. unfold group_item. rewrite (Hall x) by left.
  unfold doc_map_contains. rewrite bool_decide_eq_true_2.
  2:{ rewrite fmap_app. apply elem_of_app. right. left. }
  cbn [negb]. rewrite doc_map_increment_last by done.
  cbn [Summary.id Summary.metadata Summary.chunk_count Summary.sample_text].
  rewrite IH by (done || intros y Hy; apply Hall; by right).
  do 5 f_equal. cbn [length]. lia.
Qed.

Lemma group_items_new_doc d x rest dm :
  MStr d ∉ dm.*1 →
  (∀ y, y ∈ x :: rest → carries d y) →
  group_items dm (x :: rest)
  = Returned (dm ++ [(MStr d, Summary.mk (MStr d) (strip_reserved (Chroma.metadata x))
                                         (Z.of_nat (length (x :: rest)))
                                         (PyStr.prefix 100 (Chroma.document x) +:+ "..."))]).
Proof.
  intros Hd Hall. cbn [group_items]. unfold group_item. rewrite (Hall x) by left.
  rewrite (bool_decide_eq_false_2 _ Hd : doc_map_contains dm (MStr d) = false).
  cbn [negb]. rewrite doc_map_set_fresh by (by apply bool_decide_eq_false_2).
  rewrite doc_map_increment_last by done.
  cbn [Summary.id Summary.metadata Summary.chunk_count Summary.sample_text].
  rewrite group_items_counted by (done || intros y Hy; apply Hall; by right).
  do 5 f_equal. cbn [length]. lia.
Qed.

Lemma strip_reserved_chunk_metadata_any md d i :
  strip_reserved (chunk_metadata_of md d i) = strip_reserved md.
Proof.
  unfold strip_reserved, chunk_metadata_of.
  rewrite !map_filter_insert_not; [done|intros y Hy; apply Hy; simpl..].
  - left.
  - right. left.
Qed.

(** X11: [add_document] of a text with at least one chunk, under an
    identifier new to the collection, adds one summary at the end of the
    listing and changes none of the others: the new summary has the
    generated id, the caller's metadata less the reserved keys, the number
    of chunks and the preview of the first chunk. *)
Theorem add_document_appends_summary uuid4 text metadata c docs :
  let chunks := _chunk_text text default_max_chunk_size in
  (get_all_documents c).1 = Returned docs →
  (∀ i, i < length chunks → chunk_id_of uuid4 i ∉ Chroma.ids (Chroma.get c)) →
  (∀ x, x ∈ c → ¬ carries uuid4 x) →
  chunks ≠ [] →
  (get_all_documents (add_document uuid4 text metadata c).2).1
  = Returned (docs ++ [Summary.mk (MStr uuid4)
                                  (strip_reserved (metadata_or_empty metadata))
                                  (Z.of_nat (length chunks))
                                  (PyStr.prefix 100 (hd "" chunks) +:+ "...")]).
Proof.
  intros chunks Hdocs Hfresh Hnone Hne.
  rewrite add_document_fresh by exact Hfresh. cbn [snd]. fold chunks.
  rewrite get_all_documents_eq in Hdocs |- *. cbn [fst] in *.
  rewrite group_items_app.
  destruct (group_items [] c) as [dm|] eqn:Hrun; [|done]. injection Hdocs as <-.
  pose proof (stored_items_carry uuid4 (metadata_or_empty metadata) chunks) as Hcarry.
  destruct chunks as [|chunk rest]; [done|]. rewrite imap_cons in *.
  rewrite (group_items_new_doc uuid4).
  - rewrite fmap_app. cbn [fmap list_fmap snd hd length]. rewrite length_imap.
    unfold stored_item at 1 2. cbn [Chroma.metadata Chroma.document].
    by rewrite strip_reserved_chunk_metadata_any.
  - intros Hin. destruct (group_items_keys c [] dm Hrun eq_refl) as [_ Hsub].
    destruct (Hsub _ Hin) as [Hnil|(x & Hx & Hcar)]; [by apply elem_of_nil in Hnil|].
    by apply (Hnone x).
  - done.
Qed.

Lemma add_document_appends_summary_witness :
  (get_all_documents (add_document "b" two_fives (Some {["title" := MStr "T"]})
                        [owned_item]).2).1
  = Returned [Summary.mk (MStr "a") ∅ 1 "hello...";
              Summary.mk (MStr "b") {["title" := MStr "T"]} 1 "aaaaa bbbbb..."].
Proof.
  etrans; [apply (add_document_appends_summary "b" two_fives
                    (Some {["title" := MStr "T"]}) [owned_item]
                    [Summary.mk (MStr "a") ∅ 1 "hello..."])|reflexivity].
  - reflexivity.
  - intros i _ [Hin|Hin%elem_of_nil]%elem_of_cons; [|done].
    by apply chunk_id_of_inj in Hin as [? _].
  - intros x ->%list_elem_of_singleton. by vm_compute.
  - by vm_compute.
Defined.

Lemma filter_all {A} (P : A → Prop) `{!∀ x, Decision (P x)} (l : list A) :
  (∀ x, x ∈ l → P x) → filter P l = l.
Proof.
  induction l as [|a l IH]; intros Hall; [done|].
  rewrite filter_cons_True by (apply Hall; left). f_equal. apply IH.
  intros x Hx. apply Hall. by right.
Qed.

Lemma filter_none {A} (P : A → Prop) `{!∀ x, Decision (P x)} (l : list A) :
  (∀ x, x ∈ l → ¬ P x) → filter P l = [].
Proof.
  induction l as [|a l IH]; intros Hall; [done|].
  rewrite filter_cons_False by (apply Hall; left). apply IH.
  intros x Hx. apply Hall. by right.
Qed.

(** X12: adding a document under a new identifier and deleting it at once
    gives the collection back as it was. *)
Theorem add_then_delete_restores uuid4 text metadata c :
  (∀ i, i < length (_chunk_text text default_max_chunk_size) →
        chunk_id_of uuid4 i ∉ Chroma.ids (Chroma.get c)) →
  (∀ x, x ∈ c → ¬ carries uuid4 x) →
  (doc_id ← add_document uuid4 text metadata; delete_document doc_id) c
  = (Returned tt, c).
Proof.
  intros Hfresh Hnone.
  erewrite py_bind_returned by (by apply add_document_fresh).
  rewrite delete_document_eq. f_equal.
  set (new := imap (stored_item uuid4 (metadata_or_empty metadata))
                   (_chunk_text text default_max_chunk_size)).
  rewrite filter_app, (filter_none _ c Hnone), app_nil_l.
  rewrite (filter_all _ new) by apply stored_items_carry.
  unfold Chroma.delete. rewrite filter_app.
  rewrite (filter_none _ new) by (intros x Hx Hid; apply Hid; by apply list_elem_of_fmap_2).
  rewrite (filter_all _ c), app_nil_r; [done|].
  - intros x Hx (y & Hid & (i & chunk & -> & Hi)%elem_of_lookup_imap)%list_elem_of_fmap.
    apply (Hfresh i); [by apply lookup_lt_Some in Hi|].
    cbn [Chroma.ids Chroma.get]. unfold stored_item in Hid. cbn [Chroma.id] in Hid.
    rewrite <-Hid. by apply list_elem_of_fmap_2.
Qed.

Lemma add_then_delete_restores_witness :
  (doc_id ← add_document "b" two_fives None; delete_document doc_id) [owned_item; stray_item]
  = (Returned tt, [owned_item; stray_item]).
Proof.
  apply add_then_delete_restores.
  - intros i _ Hin. simpl in Hin.
    repeat (apply elem_of_cons in Hin as [Hin|Hin]; [by vm_compute in Hin|]).
    by apply elem_of_nil in Hin.
  - intros x Hx.
    repeat (apply elem_of_cons in Hx as [->|Hx]; [by vm_compute|]).
    by apply elem_of_nil in Hx.
Defined.

Lemma filter_fmap {A B} (f : A → B) (P : B → Prop) `{!∀ y, Decision (P y)} (l : list A) :
  filter P (f <$> l) = f <$> filter (λ x, P (f x)) l.
Proof.
  induction l as [|a l IH]; [done|]. rewrite fmap_cons, !filter_cons, IH.
  by destruct (decide (P (f a))).
Qed.

Lemma doc_id_values_cons x c :
  doc_id_values (x :: c)
  = match Chroma.metadata x !! "doc_id" with
    | Some b => [b]
    | None => []
    end ++ doc_id_values c.
Proof. unfold doc_id_values. cbn [omap list_omap]. by destruct (_ !! _). Qed.

Lemma doc_id_values_filter d c :
  doc_id_values (filter (λ x, ¬ carries d x) c)
  = filter (λ k, k ≠ MStr d) (doc_id_values c).
Proof.
  induction c as [|x c IH]; [done|].
  rewrite filter_cons, doc_id_values_cons, filter_app, <-IH.
  case_decide as Hc; [rewrite doc_id_values_cons|]; unfold carries in Hc.
  - f_equal. destruct (Chroma.metadata x !! "doc_id") as [b|]; [|done].
    rewrite filter_cons_True; [done|]. congruence.
  - rewrite Hc. by rewrite filter_cons_False by (by intros []).
Qed.

Lemma items_of_filter k d c :
  k ≠ MStr d → items_of k (filter (λ x, ¬ carries d x) c) = items_of k c.
Proof.
  intros Hne. unfold items_of. apply list_filter_filter_l.
  intros x Hk. unfold carries. rewrite Hk. congruence.
Qed.

(** X13: in a collection with unique ids, [delete_document] takes the
    summary of that document out of the listing and leaves every other
    summary as it was, in the same order. *)
Theorem delete_document_listing d c docs :
  Chroma.wf c →
  (get_all_documents c).1 = Returned docs →
  (get_all_documents (delete_document d c).2).1
  = Returned (filter (λ s, Summary.id s ≠ MStr d) docs).
Proof.
  intros Hwf Hdocs.
  destruct (get_all_documents c) as [o c'] eqn:Hc. cbn [fst] in Hdocs. subst o.
  pose proof Hc as [-> ->]%get_all_documents_returned.
  rewrite delete_document_eq. cbn [snd]. rewrite chroma_delete_carried by done.
  rewrite get_all_documents_closed.
  2:{ intros x [_ Hx]%list_elem_of_filter.
      destruct (Chroma.metadata x !! "doc_id") as [b|] eqn:Hb; [by eexists|].
      rewrite get_all_documents_eq, (group_items_missing c [] x Hx Hb) in Hc. done. }
  cbn [fst]. f_equal. unfold listing_of.
  rewrite doc_id_values_filter, first_occurrences_filter, filter_fmap.
  apply list_fmap_ext. intros i k [Hne _]%list_elem_of_lookup_2%list_elem_of_filter.
  unfold summary_of. by rewrite items_of_filter.
Qed.

Lemma delete_document_listing_witness :
  (get_all_documents
     (delete_document "a" [stored_item "a" ∅ 0 "one"; stored_item "b" ∅ 0 "two";
                           stored_item "a" ∅ 1 "three"]).2).1
  = Returned [Summary.mk (MStr "b") ∅ 1 "two..."].
Proof.
  etrans; [apply (delete_document_listing "a" _
                    [Summary.mk (MStr "a") ∅ 2 "one..."; Summary.mk (MStr "b") ∅ 1 "two..."])
          |reflexivity].
  - unfold Chroma.wf. apply (bool_decide_unpack _). vm_compute. exact I.
  - reflexivity.
Defined.

(** ** The prompt filter and the retrieval of [generate_response] *)

Lemma lower_app s t : PyStr.lower (s +:+ t) = PyStr.lower s +:+ PyStr.lower t.
Proof.
  induction s as [|c r IH]; [done|]. rewrite string_app_cons. simpl.
  by rewrite IH, string_app_cons.
Qed.

Lemma startswith_app k s : PyStr.startswith k (k +:+ s) = true.
Proof.
  induction k as [|c k IH]; [done|]. rewrite string_app_cons. simpl.
  by rewrite Ascii.eqb_refl, IH.
Qed.

Lemma contains_here k s : PyStr.startswith k s = true → PyStr.contains k s = true.
Proof. intros Hk. destruct s; simpl in *; by rewrite Hk. Qed.

Lemma contains_app k a b : PyStr.contains k (a +:+ k +:+ b) = true.
Proof.
  induction a as [|c a IH].
  - rewrite string_app_nil_l. apply contains_here, startswith_app.
  - rewrite string_app_cons. cbn [PyStr.contains]. rewrite IH. apply orb_true_r.
Qed.

Lemma truthy_context_of docs :
  docs ≠ [] → PyStr.truthy (Rag.context_of docs) = true.
Proof.
  destruct docs as [|d ds]; [done|]. intros _. unfold Rag.context_of.
  rewrite fmap_cons. destruct ((λ doc, _) <$> ds) as [|x xs].
  - cbn [PyStr.join]. by rewrite string_app_cons.
  - rewrite join_cons_cons. by rewrite !string_app_cons.
Qed.

Section GenerateFacts.
Variable collection_query : Chroma.Collection → list string → Z → Rag.QueryResult.
Variable generate_content : string → string.

Lemma generate_response_refuses prompt use_rag c :
  existsb (λ keyword, PyStr.contains keyword (PyStr.lower prompt)) Rag.prohibited_keywords
  = true →
  Rag.generate_response collection_query generate_content prompt use_rag c
  = (Returned (Rag.Refused Rag.refusal), c).
Proof. intros Hk. unfold Rag.generate_response. by rewrite Hk. Qed.

(** What [generate_response] returns for a prompt that passes the filter. *)
Lemma generate_response_answers prompt use_rag c :
  existsb (λ keyword, PyStr.contains keyword (PyStr.lower prompt)) Rag.prohibited_keywords
  = false →
  let retrieved := hd [] (Rag.documents (collection_query c [prompt] 5%Z)) in
  let with_context := use_rag && bool_decide (retrieved ≠ []) in
  Rag.generate_response collection_query generate_content prompt use_rag c
  = (Returned (Rag.Answered
       (Rag.mkAnswer
          (generate_content
             (if with_context
              then Rag.enhanced_prompt_of (Rag.context_of retrieved) prompt
              else prompt))
          with_context
          (if with_context then retrieved else []))), c).
Proof.
  intros Hk. unfold Rag.generate_response. rewrite Hk.
  destruct use_rag; cbn [andb].
  - unfold query. erewrite py_bind_returned by reflexivity. lazy beta iota.
    destruct (Rag.documents (collection_query c [prompt] 5%Z)) as [|first rest] eqn:Hdocs;
      cbn [hd].
    + rewrite !bool_decide_eq_false_2 by (by intros []).
      erewrite py_bind_returned by reflexivity. cbn [PyStr.truthy andb].
      by erewrite py_bind_returned by reflexivity.
    + destruct first as [|d ds].
      * rewrite (bool_decide_eq_true_2 ([] :: rest ≠ [])) by done.
        rewrite !bool_decide_eq_false_2 by (by intros []).
        erewrite py_bind_returned by reflexivity. cbn [PyStr.truthy andb].
        by erewrite py_bind_returned by reflexivity.
      * rewrite !bool_decide_eq_true_2 by done.
        erewrite py_bind_returned by reflexivity.
        rewrite truthy_context_of by done. cbn [andb].
        by erewrite py_bind_returned by reflexivity.
  - erewrite py_bind_returned by reflexivity.
    erewrite py_bind_returned by reflexivity. cbn [PyStr.truthy].
    by erewrite py_bind_returned by reflexivity.
Qed.

Lemma traced_bind_returned {A B} (m : Traced.M A) (f : A → Traced.M B) w a w' :
  m w = (Returned a, w') → (m ≫= f) w = f a w'.
Proof. unfold mbind, Traced.M_bind. by intros ->. Qed.

Lemma traced_generate_response_refuses prompt use_rag w :
  existsb (λ keyword, PyStr.contains keyword (PyStr.lower prompt)) Rag.prohibited_keywords
  = true →
  Traced.generate_response collection_query generate_content prompt use_rag w
  = (Returned (Rag.Refused Rag.refusal), w).
Proof. intros Hk. unfold Traced.generate_response. by rewrite Hk. Qed.

(** The calls of [generate_response] for a prompt that passes the filter:
    one search, for the prompt and five results, when retrieval is asked
    for, then one call of the model, with the prompt it is given. *)
Lemma traced_generate_response_answers prompt use_rag w :
  existsb (λ keyword, PyStr.contains keyword (PyStr.lower prompt)) Rag.prohibited_keywords
  = false →
  let retrieved :=
    hd [] (Rag.documents (collection_query (Traced.collection w) [prompt] 5%Z)) in
  let with_context := use_rag && bool_decide (retrieved ≠ []) in
  let enhanced_prompt :=
    if with_context
    then Rag.enhanced_prompt_of (Rag.context_of retrieved) prompt
    else prompt in
  Traced.generate_response collection_query generate_content prompt use_rag w
  = (Returned (Rag.Answered
       (Rag.mkAnswer (generate_content enhanced_prompt) with_context
                     (if with_context then retrieved else []))),
     Traced.mkWorld (Traced.collection w)
       (Traced.calls w
        ++ (if use_rag then [Traced.Search [prompt] 5%Z] else [])
        ++ [Traced.Generate enhanced_prompt])).
Proof.
  intros Hk. destruct w as [c log]. unfold Traced.generate_response. rewrite Hk.
  cbn [Traced.collection Traced.calls].
  destruct use_rag; cbn [andb].
  - erewrite traced_bind_returned by reflexivity. lazy beta iota.
    cbn [Traced.collection Traced.calls].
    destruct (Rag.documents (collection_query c [prompt] 5%Z)) as [|first rest] eqn:Hdocs;
      cbn [hd].
    + rewrite !bool_decide_eq_false_2 by (by intros []).
      erewrite traced_bind_returned by reflexivity. cbn [PyStr.truthy andb].
      erewrite traced_bind_returned by reflexivity.
      erewrite traced_bind_returned by reflexivity.
      cbn. by rewrite <-app_assoc.
    + destruct first as [|d ds].
      * rewrite (bool_decide_eq_true_2 ([] :: rest ≠ [])) by done.
        rewrite !bool_decide_eq_false_2 by (by intros []).
        erewrite traced_bind_returned by reflexivity. cbn [PyStr.truthy andb].
        erewrite traced_bind_returned by reflexivity.
        erewrite traced_bind_returned by reflexivity.
        cbn. by rewrite <-app_assoc.
      * rewrite !bool_decide_eq_true_2 by done.
        erewrite traced_bind_returned by reflexivity.
        rewrite truthy_context_of by done. cbn [andb].
        erewrite traced_bind_returned by reflexivity.
        erewrite traced_bind_returned by reflexivity.
        cbn [mret Traced.M_ret Traced.collection Traced.calls]. by rewrite <-app_assoc.
  - erewrite traced_bind_returned by reflexivity.
    erewrite traced_bind_returned by reflexivity. cbn [PyStr.truthy].
    erewrite traced_bind_returned by reflexivity.
    by erewrite traced_bind_returned by reflexivity.
Qed.

(** Without the record of the calls, the reply and the collection are
    those of [Rag.generate_response]. *)
Lemma traced_generate_response_erase prompt use_rag w :
  (Traced.generate_response collection_query generate_content prompt use_rag w).1
  = (Rag.generate_response collection_query generate_content prompt use_rag
       (Traced.collection w)).1
  ∧ Traced.collection
      (Traced.generate_response collection_query generate_content prompt use_rag w).2
    = (Rag.generate_response collection_query generate_content prompt use_rag
         (Traced.collection w)).2.
Proof.
  destruct (existsb (λ keyword, PyStr.contains keyword (PyStr.lower prompt))
              Rag.prohibited_keywords) eqn:Hk.
  - by rewrite traced_generate_response_refuses, generate_response_refuses.
  - by rewrite traced_generate_response_answers, generate_response_answers.
Qed.

(** X14: a prompt that holds a prohibited keyword anywhere, in any mix of
    upper and lower case, is refused with the fixed message and the
    collection is unchanged; and on the way no call is made, neither to
    the search of the store nor to the model: the record of the calls is
    left as it was. *)
Theorem generate_response_refuses_keyword before word after use_rag c :
  PyStr.lower word ∈ Rag.prohibited_keywords →
  Rag.generate_response collection_query generate_content
    (before +:+ word +:+ after) use_rag c
  = (Returned (Rag.Refused Rag.refusal), c)
  ∧ ∀ calls,
      Traced.generate_response collection_query generate_content
        (before +:+ word +:+ after) use_rag (Traced.mkWorld c calls)
      = (Returned (Rag.Refused Rag.refusal), Traced.mkWorld c calls).
Proof.
  intros Hword.
  assert (existsb (λ keyword, PyStr.contains keyword
                                (PyStr.lower (before +:+ word +:+ after)))
            Rag.prohibited_keywords = true) as Hk.
  { apply existsb_exists. exists (PyStr.lower word). split; [by apply list_elem_of_In|].
    rewrite !lower_app. apply contains_app. }
  split; [by apply generate_response_refuses|].
  intros calls. by apply traced_generate_response_refuses.
Qed.

(** X15: for a prompt that passes the filter, [generate_response] answers
    and leaves the collection unchanged; [rag_used] is true exactly when
    retrieval was asked for and the search gave at least one text for the
    prompt; [documents_used] is then the list of these texts and is empty
    otherwise; and without retrieved texts the model is given the prompt
    as it is. *)
Theorem rag_used_iff_retrieved prompt use_rag c :
  existsb (λ keyword, PyStr.contains keyword (PyStr.lower prompt)) Rag.prohibited_keywords
  = false →
  let retrieved := hd [] (Rag.documents (collection_query c [prompt] 5%Z)) in
  ∃ answer,
    Rag.generate_response collection_query generate_content prompt use_rag c
    = (Returned (Rag.Answered answer), c)
    ∧ (Rag.rag_used answer = true ↔ use_rag = true ∧ retrieved ≠ [])
    ∧ Rag.documents_used answer = (if Rag.rag_used answer then retrieved else [])
    ∧ (Rag.rag_used answer = false → Rag.response answer = generate_content prompt).
Proof.
  intros Hk retrieved. eexists. split; [by apply generate_response_answers|].
  cbn [Rag.rag_used Rag.documents_used Rag.response]. fold retrieved.
  split_and!; [|done|by intros ->].
  rewrite andb_true_iff, bool_decide_eq_true. done.
Qed.
End GenerateFacts.

Lemma generate_response_refuses_keyword_witness :
  Rag.generate_response (λ _ _ _, Rag.mkQueryResult [["hello"]]) (λ p, p)
    ("Which " +:+ "DRUG" +:+ " helps?") true [owned_item]
  = (Returned (Rag.Refused Rag.refusal), [owned_item])
  ∧ ∀ calls,
      Traced.generate_response (λ _ _ _, Rag.mkQueryResult [["hello"]]) (λ p, p)
        ("Which " +:+ "DRUG" +:+ " helps?") true (Traced.mkWorld [owned_item] calls)
      = (Returned (Rag.Refused Rag.refusal), Traced.mkWorld [owned_item] calls).
Proof.
  apply generate_response_refuses_keyword. vm_compute.
  do 4 right. left.
Defined.

Lemma rag_used_iff_retrieved_witness :
  ∃ answer,
    Rag.generate_response (λ _ _ _, Rag.mkQueryResult [["hello"]]) (λ p, p)
      "What is in my file?" true [owned_item]
    = (Returned (Rag.Answered answer), [owned_item])
    ∧ (Rag.rag_used answer = true ↔ true = true ∧ ["hello"] ≠ [])
    ∧ Rag.documents_used answer = (if Rag.rag_used answer then ["hello"] else [])
    ∧ (Rag.rag_used answer = false → Rag.response answer = "What is in my file?").
Proof.
  apply (rag_used_iff_retrieved (λ _ _ _, Rag.mkQueryResult [["hello"]]) (λ p, p)
           "What is in my file?" true [owned_item]).
  reflexivity.
Defined.

(** ** The endpoints *)

Lemma add_loop_total d md (l : list (nat * string)) c :
  ∃ c', for_each (λ (_ : unit) '(i, chunk),
          collection_add (Chroma.mkItem (chunk_id_of d i) chunk (chunk_metadata_of md d i)))
        l tt c = (Returned tt, c').
Proof.
  revert c. induction l as [|[i chunk] l IH]; intros c; simpl; [by eexists|].
  py_step. apply IH.
Qed.

Lemma add_document_total uuid4 text metadata c :
  ∃ c', add_document uuid4 text metadata c = (Returned uuid4, c').
Proof.
  unfold add_document.
  destruct (add_loop_total uuid4 (metadata_or_empty metadata)
              (enumerate (_chunk_text text default_max_chunk_size)) c) as [c' Hc'].
  exists c'. by erewrite py_bind_returned by exact Hc'.
Qed.

Lemma add_request_with_text data t :
  data ≫= Rag.text = Some t → Rag.add_request_falsy data = false.
Proof. by destruct data as [[[text'|] title' metadata']|]. Qed.

(** X16: [GET /documents] answers 200 with the listing when every item has
    a [doc_id] and 500 with the [KeyError] as soon as one item lacks it; in
    both cases the collection is left as it was. *)
Theorem list_documents_endpoint_status c :
  ((∀ x, x ∈ c → is_Some (Chroma.metadata x !! "doc_id")) →
   Rag.list_documents_endpoint c = ((Rag.Documents (listing_of c), 200%Z), c))
  ∧ (∀ x, x ∈ c → Chroma.metadata x !! "doc_id" = None →
     Rag.list_documents_endpoint c
     = ((Rag.ErrorException (KeyError (MStr "doc_id")), 500%Z), c)).
Proof.
  unfold Rag.list_documents_endpoint, Rag.try_except. split.
  - intros Hall. by rewrite get_all_documents_closed.
  - intros x Hx Hnone. by rewrite get_all_documents_eq, (group_items_missing c [] x).
Qed.

Lemma list_documents_endpoint_status_witness :
  Rag.list_documents_endpoint [owned_item]
  = ((Rag.Documents [Summary.mk (MStr "a") ∅ 1 "hello..."], 200%Z), [owned_item])
  ∧ Rag.list_documents_endpoint [owned_item; stray_item]
    = ((Rag.ErrorException (KeyError (MStr "doc_id")), 500%Z), [owned_item; stray_item]).
Proof.
  split.
  - etrans; [apply (proj1 (list_documents_endpoint_status [owned_item]))|reflexivity].
    intros x ->%list_elem_of_singleton. by eexists.
  - apply (proj2 (list_documents_endpoint_status [owned_item; stray_item]) stray_item);
      [right; left|reflexivity].
Defined.

(** X17: [DELETE /documents/<doc_id>] answers 200 with success for every
    id, known or not; afterwards no item of that document is left, and
    when there was none the collection is as it was. *)
Theorem delete_document_endpoint_always_succeeds doc_id c :
  ∃ c', Rag.delete_document_endpoint doc_id c = ((Rag.Success, 200%Z), c')
        ∧ (∀ x, x ∈ c' → ¬ carries doc_id x)
        ∧ (filter (carries doc_id) c = [] → c' = c).
Proof.
  unfold Rag.delete_document_endpoint, Rag.try_except.
  rewrite delete_document_eq. eexists. split_and!; [done| |].
  - intros x Hx. apply (delete_document_none_left doc_id c x).
    by rewrite delete_document_eq.
  - intros ->. apply chroma_delete_nil.
Qed.

(** X18: [POST /add_document] for the bodies of [Rag.AddRequest], that is
    [None] or an object whose text and title, where present, are strings
    and whose metadata, where present, is an object (a metadata that is
    [null] or not an object, on which [metadata['title'] = title] raises,
    is not among them), sent to a collection that takes every item: the
    answer is 400, the collection left alone, when the body is [None] or
    has no text; with a text it is 200 with the generated id, and when the
    text has no chunk, as the empty text, nothing is stored all the
    same. *)
Theorem add_document_endpoint_status uuid4 data c :
  match data ≫= Rag.text with
  | None =>
      Rag.add_document_endpoint uuid4 data c
      = ((Rag.ErrorMessage "No document text provided", 400%Z), c)
  | Some t =>
      ∃ c', Rag.add_document_endpoint uuid4 data c = ((Rag.Added uuid4, 200%Z), c')
            ∧ (_chunk_text t default_max_chunk_size = [] → c' = c)
  end.
Proof.
  unfold Rag.add_document_endpoint.
  destruct (data ≫= Rag.text) as [t|] eqn:Ht.
  - rewrite (add_request_with_text data t Ht). cbn [orb negb Rag.present].
    unfold Rag.try_except, Rag.subscript.
    erewrite py_bind_returned by reflexivity.
    destruct (add_document_total uuid4 t
      (Some (<["title" := MStr (default "Untitled Document" (data ≫= Rag.title))]>
               (default ∅ (data ≫= Rag.metadata)))) c) as [c' Hc'].
    rewrite Hc'. exists c'. split; [done|]. intros Hnil.
    rewrite add_document_fresh in Hc'.
    + rewrite Hnil in Hc'. simpl in Hc'. rewrite app_nil_r in Hc'. by injection Hc'.
    + rewrite Hnil. simpl. lia.
  - cbn [Rag.present negb]. by rewrite orb_true_r.
Qed.

(** X19: the title of the request, or ['Untitled Document'] when it has
    none, is stored on every chunk of the document under ["title"], in
    place of a title given inside the metadata of the request. *)
Theorem add_document_endpoint_sets_title uuid4 request t c :
  Rag.text request = Some t →
  (∀ i, i < length (_chunk_text t default_max_chunk_size) →
        chunk_id_of uuid4 i ∉ Chroma.ids (Chroma.get c)) →
  ∃ new,
    Rag.add_document_endpoint uuid4 (Some request) c = ((Rag.Added uuid4, 200%Z), c ++ new)
    ∧ length new = length (_chunk_text t default_max_chunk_size)
    ∧ ∀ x, x ∈ new →
        Chroma.metadata x !! "title"
        = Some (MStr (default "Untitled Document" (Rag.title request))).
Proof.
  intros Ht Hfresh. unfold Rag.add_document_endpoint.
  rewrite (add_request_with_text (Some request) t) by done.
  unfold Rag.try_except, Rag.subscript. cbn [mbind option_bind]. rewrite Ht.
  cbn [orb negb Rag.present].
  erewrite py_bind_returned by reflexivity.
  rewrite add_document_fresh by exact Hfresh.
  eexists. split_and!; [done|by rewrite length_imap|].
  intros x (i & chunk & -> & _)%elem_of_lookup_imap.
  unfold stored_item, chunk_metadata_of, metadata_or_empty. cbn [Chroma.metadata].
  do 2 rewrite lookup_insert_ne by done. by rewrite lookup_insert_eq.
Qed.

Lemma add_document_endpoint_sets_title_witness :
  ∃ new,
    Rag.add_document_endpoint "u"
      (Some (Rag.mkAddRequest (Some "hello") None (Some {["title" := MStr "inner"]}))) []
    = ((Rag.Added "u", 200%Z), [] ++ new)
    ∧ length new = length (_chunk_text "hello" default_max_chunk_size)
    ∧ ∀ x, x ∈ new → Chroma.metadata x !! "title" = Some (MStr "Untitled Document").
Proof.
  apply (add_document_endpoint_sets_title "u"
           (Rag.mkAddRequest (Some "hello") None (Some {["title" := MStr "inner"]}))
           "hello" []); [reflexivity|].
  intros i _. apply not_elem_of_nil.
Defined.

Section GenerateEndpointFacts.
Variable collection_query : Chroma.Collection → list string → Z → Rag.QueryResult.
Variable generate_content : string → string.

Lemma generate_response_total prompt use_rag c :
  ∃ reply,
    Rag.generate_response collection_query generate_content prompt use_rag c
    = (Returned reply, c).
Proof.
  destruct (existsb (λ keyword, PyStr.contains keyword (PyStr.lower prompt))
              Rag.prohibited_keywords) eqn:Hk.
  - eexists. by apply generate_response_refuses.
  - eexists. by apply generate_response_answers.
Qed.

(** X20: [POST /generate_response] answers 400 when the body has no
    prompt; with a prompt it answers 200 with what [generate_response]
    returns for that prompt, retrieval being on unless the body says
    otherwise; it never changes the collection. *)
Theorem generate_response_endpoint_status data c :
  match data ≫= Rag.prompt with
  | None =>
      Rag.generate_response_endpoint collection_query generate_content data c
      = ((Rag.ErrorMessage "No prompt provided", 400%Z), c)
  | Some p =>
      ∃ reply,
        Rag.generate_response collection_query generate_content p
          (default true (data ≫= Rag.use_rag)) c = (Returned reply, c)
        ∧ Rag.generate_response_endpoint collection_query generate_content data c
          = ((Rag.Generated reply, 200%Z), c)
  end.
Proof.
  unfold Rag.generate_response_endpoint.
  destruct (data ≫= Rag.prompt) as [p|] eqn:Hp.
  - assert (Rag.generate_request_falsy data = false) as ->.
    { destruct data as [[[?|] ?]|]; done. }
    cbn [orb negb Rag.present]. unfold Rag.try_except, Rag.subscript.
    erewrite py_bind_returned by reflexivity.
    destruct (generate_response_total p (default true (data ≫= Rag.use_rag)) c)
      as [reply Hreply].
    exists reply. by rewrite Hreply.
  - cbn [Rag.present negb]. by rewrite orb_true_r.
Qed.
End GenerateEndpointFacts.

Lemma add_document_endpoint_status_witness :
  ∃ c', Rag.add_document_endpoint "u" (Some (Rag.mkAddRequest (Some "") None None))
          [owned_item]
        = ((Rag.Added "u", 200%Z), c')
        ∧ (_chunk_text "" default_max_chunk_size = [] → c' = [owned_item]).
Proof.
  exact (add_document_endpoint_status "u" (Some (Rag.mkAddRequest (Some "") None None))
           [owned_item]).
Defined.

(** ** The listing along a history *)

(** X21: after any history of [add_document] and [delete_document] calls
    from the empty collection, [uuid4] never giving the same identifier
    twice, the listing returns, and every summary bears one of the
    generated identifiers. *)
Theorem listing_after_history ops :
  NoDup (generated_ids ops) →
  ∃ docs,
    get_all_documents (run_ops ops []) = (Returned docs, run_ops ops [])
    ∧ ∀ s, s ∈ docs → ∃ u, Summary.id s = MStr u ∧ u ∈ generated_ids ops.
Proof.
  intros Hnd. destruct (run_ops_inv ops Hnd) as (_ & Hitems & _).
  assert (∀ x, x ∈ run_ops ops [] → is_Some (Chroma.metadata x !! "doc_id")) as Hall.
  { intros x Hx. destruct (Hitems x Hx) as (d & _ & _ & _ & Hcar). by eexists. }
  exists (listing_of (run_ops ops [])). split; [by apply get_all_documents_closed|].
  intros s (k & -> & Hk)%list_elem_of_fmap.
  rewrite first_occurrences_elem, doc_id_values_elem in Hk.
  destruct Hk as (x & Hx & Hk). destruct (Hitems x Hx) as (d & _ & Hd & _ & Hcar).
  exists d. split; [|done]. unfold carries in Hcar. cbn [summary_of Summary.id].
  congruence.
Qed.

Lemma listing_after_history_witness :
  ∃ docs,
    get_all_documents (run_ops [OpAdd "a" three_paragraphs None; OpAdd "b" two_fives None;
                                OpDelete "a"] [])
    = (Returned docs, run_ops [OpAdd "a" three_paragraphs None; OpAdd "b" two_fives None;
                               OpDelete "a"] [])
    ∧ ∀ s, s ∈ docs →
        ∃ u, Summary.id s = MStr u
             ∧ u ∈ generated_ids [OpAdd "a" three_paragraphs None; OpAdd "b" two_fives None;
                                  OpDelete "a"].
Proof.
  apply listing_after_history. apply (bool_decide_unpack _). vm_compute. exact I.
Defined.
